(** * youd0wnload: a shallow embedding of [app.py]

    The web application lets a client look up a media URL, start a
    download/convert job on a background thread, follow its progress on a
    socket room and fetch the finished file once through a one-time token.

    Python values are modelled as follows.
    - [str] is a list of Unicode code points ([N]); [len], slicing and
      iteration of a Python string all work on code points.
    - the module-level dict [DOWNLOAD_MAP] is a [gmap] from tokens to entries.
    - the file system is a [gmap] from paths to file sizes.
    - [socketio.emit] appends to a chronological log of effects.
    - the external engine (yt-dlp) and the random source (uuid4) are inputs. *)

From Stdlib Require Import ZArith NArith Ascii String List Bool Lia.
From stdpp Require Import gmap list.

Local Open Scope N_scope.

(** ** Python strings *)

Abbreviation str := (list N).

(** An ASCII literal as a Python string. *)
Definition py (s : string) : str := map N_of_ascii (list_ascii_of_string s).

Definition SPACE : N := 32.
Definition HYPHEN : N := 45.

(** [str.isspace] on one code point: CPython's whitespace table
    (U+0009..U+000D, U+001C..U+0020, U+0085, U+00A0, U+1680,
    U+2000..U+200A, U+2028, U+2029, U+202F, U+205F, U+3000). *)
Definition isspace (c : N) : bool :=
  ((9 <=? c) && (c <=? 13)) || ((28 <=? c) && (c <=? 32))
  || (c =? 133) || (c =? 160) || (c =? 5760)
  || ((8192 <=? c) && (c <=? 8202))
  || (c =? 8232) || (c =? 8233) || (c =? 8239) || (c =? 8287) || (c =? 12288).

(** [str.isalnum] on the ASCII range: digits and the two cases of letters. *)
Definition ascii_isalnum (c : N) : bool :=
  ((48 <=? c) && (c <=? 57)) || ((65 <=? c) && (c <=? 90))
  || ((97 <=? c) && (c <=? 122)).

(** [s.lstrip(chars)], [s.rstrip(chars)] and [s.strip(chars)], with the set of
    characters to remove given as a predicate. *)
Fixpoint lstrip_by (p : N -> bool) (s : str) : str :=
  match s with
  | [] => []
  | c :: s' => if p c then lstrip_by p s' else s
  end.

Definition rstrip_by (p : N -> bool) (s : str) : str :=
  rev (lstrip_by p (rev s)).

Definition strip_by (p : N -> bool) (s : str) : str :=
  rstrip_by p (lstrip_by p s).

(** [s.strip()] removes whitespace; [s.strip("-")] removes hyphens. *)
Definition strip (s : str) : str := strip_by isspace s.
Definition is_hyphen (c : N) : bool := c =? HYPHEN.
Definition strip_hyphens (s : str) : str := strip_by is_hyphen s.

(** [s.split()]: the maximal runs of non-whitespace characters, in order.
    [cur] is the run being read, most recent character first. *)
Definition flush (cur : str) (rest : list str) : list str :=
  match cur with
  | [] => rest
  | _ => rev cur :: rest
  end.

Fixpoint split_from (cur : str) (s : str) : list str :=
  match s with
  | [] => flush cur []
  | c :: s' =>
      if isspace c then flush cur (split_from [] s')
      else split_from (c :: cur) s'
  end.

Definition split (s : str) : list str := split_from [] s.

(** [sep.join(words)]. *)
Fixpoint join (sep : str) (words : list str) : str :=
  match words with
  | [] => []
  | [w] => w
  | w :: ws => w ++ sep ++ join sep ws
  end.

(** Python truthiness of a string, and [x or y] on strings. *)
Definition truthy (s : str) : bool :=
  match s with [] => false | _ => true end.

Definition str_or (s d : str) : str := if truthy s then s else d.

(** [u.startswith(prefix)]. *)
Fixpoint startswith (u prefix : str) : bool :=
  match prefix, u with
  | [], _ => true
  | p :: prefix', c :: u' => (c =? p) && startswith u' prefix'
  | _ :: _, [] => false
  end.

(** ** [sanitize_filename] *)

Section Sanitize.

(** [str.isalnum] on one code point. The Unicode character database is not
    part of the program; what is used of it is that it agrees with the
    ASCII table below 128 and that no alphanumeric character is
    whitespace. *)
Variable isalnum : N -> bool.

Definition agrees_on_ascii : Prop :=
  forall c, c < 128 -> isalnum c = ascii_isalnum c.

Definition alnum_never_space : Prop :=
  forall c, isalnum c = true -> isspace c = false.

(** The loop body: keep alphanumerics, spaces and hyphens, replace the
    rest by a space. *)
Definition clean_char (ch : N) : N :=
  if isalnum ch || (ch =? SPACE) || (ch =? HYPHEN) then ch else SPACE.

Definition sanitize_filename (name : str) : str :=
  if truthy name then
    let cleaned := map clean_char name in
    let base := join [HYPHEN] (split cleaned) in
    take 120 (str_or (strip_hyphens base) (py "download"))
  else py "download".

End Sanitize.

(** The classification used to run the code on concrete ASCII titles; it
    also classifies every code point from 128 up as not alphanumeric. *)
Definition isalnum_ascii (c : N) : bool := (c <? 128) && ascii_isalnum c.


(** ** [pick_thumbnail] *)

(** One element of [info["thumbnails"]]; a field is [None] when the key is
    missing or holds [None]. *)
Record thumb := {
  th_url : option str;
  th_width : option Z;
  th_height : option Z
}.

(** The keys of the engine's info dict that the program reads. *)
Record info_dict := {
  thumbnail : option str;
  thumbnails : list thumb;
  video_id : option str;
  title : option str
}.

(** Truthiness of [d.get(key)] for a string value. *)
Definition opt_truthy (o : option str) : bool :=
  match o with
  | Some s => truthy s
  | None => false
  end.

Definition norm (u : str) : str :=
  if startswith u (py "//") then py "https:" ++ u else u.

(** [int(th.get(key) or 0)]. *)
Definition int_or_0 (o : option Z) : Z := default 0%Z o.

Definition area (th : thumb) : Z :=
  (int_or_0 (th_width th) * int_or_0 (th_height th))%Z.

(** One iteration of the loop over [thumbs], on [(best_url, best_area)]. *)
Definition thumb_step (best : option str * Z) (th : thumb) : option str * Z :=
  match th_url th with
  | Some url =>
      if truthy url then
        if (snd best <? area th)%Z then (Some (norm url), area th) else best
      else best
  | None => best
  end.

Definition ytimg_fallback (vid : str) : str :=
  py "https://img.youtube.com/vi/" ++ vid ++ py "/hqdefault.jpg".

Definition pick_thumbnail (info : info_dict) : option str :=
  match thumbnail info with
  | Some (c :: t) => Some (norm (c :: t))
  | _ =>
      let best := fold_left thumb_step (thumbnails info) (None, (-1)%Z) in
      if opt_truthy (fst best) then fst best
      else
        match video_id info with
        | Some (c :: vid) => Some (ytimg_fallback (c :: vid))
        | _ => None
        end
  end.

(** ** The server state and its effects *)

(** A value of [DOWNLOAD_MAP]: [{"path": ..., "name": ...}]. *)
Record entry := { path : str; name : str }.

(** The payloads of [socketio.emit("progress", ...)]. *)
Inductive ProgressEvent :=
  | Downloading (percent speed eta : str) (downloaded total : option Z)
  | Finished
  | Ready (url filename : str)
  | Error (message : str).

(** What the outside observes, in the order it happens. *)
Inductive effect :=
  | Emit (room : str) (ev : ProgressEvent)
  | Store (token : str) (e : entry)
  | EngineCall (url : str) (download : bool).

Record World := {
  DOWNLOAD_MAP : gmap str entry;
  files : gmap str N;
  log : list effect
}.

Definition emit (room : str) (ev : ProgressEvent) (w : World) : World :=
  {| DOWNLOAD_MAP := DOWNLOAD_MAP w; files := files w;
     log := log w ++ [Emit room ev] |}.

(** [DOWNLOAD_MAP[token] = e]. *)
Definition store (token : str) (e : entry) (w : World) : World :=
  {| DOWNLOAD_MAP := <[token := e]> (DOWNLOAD_MAP w); files := files w;
     log := log w ++ [Store token e] |}.

(** [os.path.exists] and [os.path.getsize] on the modelled file system. *)
Definition path_exists (fs : gmap str N) (p : str) : bool :=
  bool_decide (is_Some (fs !! p)).

Definition getsize (fs : gmap str N) (p : str) : N := default 0 (fs !! p).

(** HTTP responses. *)
Inductive body :=
  | Text (s : str)
  | JsonError (msg : str)
  | JsonInfo (title thumbnail : option str)
  | JsonStarted
  | Attachment (file_path download_name : str).

Record response := { content : body; status : N }.

(** ** [strip_ansi] and the progress hook *)

Definition ESC : N := 27.

Definition is_sgr_param (c : N) : bool :=
  ((48 <=? c) && (c <=? 57)) || (c =? 59).

(** Length of a match of [[0-9;]*m] at the head of [s]. *)
Fixpoint sgr_tail_len (s : str) : option nat :=
  match s with
  | [] => None
  | c :: s' =>
      if is_sgr_param c then S <$> sgr_tail_len s'
      else if c =? 109 then Some 1%nat else None
  end.

(** Length of a match of [ANSI_RE] at the head of [s]. *)
Definition ansi_match_len (s : str) : option nat :=
  match s with
  | c1 :: c2 :: s' =>
      if (c1 =? ESC) && (c2 =? 91) then (fun n => S (S n)) <$> sgr_tail_len s'
      else None
  | _ => None
  end.

(** [ANSI_RE.sub('', s)]: scan left to right, dropping each match; [skip]
    counts the characters of the current match still to drop. *)
Fixpoint sub_ansi (skip : nat) (s : str) : str :=
  match s with
  | [] => []
  | c :: s' =>
      match skip with
      | S k => sub_ansi k s'
      | O =>
          match ansi_match_len s with
          | Some (S k) => sub_ansi k s'
          | _ => c :: sub_ansi 0 s'
          end
      end
  end.

Definition strip_ansi (s : option str) : str := sub_ansi 0 (default [] s).

(** The dict the engine passes to a progress hook. *)
Record hook_dict := {
  hd_status : option str;
  hd_percent_str : option str;
  hd_speed_str : option str;
  hd_eta_str : option str;
  hd_downloaded_bytes : option Z;
  hd_total_bytes : option Z;
  hd_total_bytes_estimate : option Z
}.

(** [d.get("total_bytes") or d.get("total_bytes_estimate")]. *)
Definition total_or_estimate (d : hook_dict) : option Z :=
  match hd_total_bytes d with
  | Some n => if (n =? 0)%Z then hd_total_bytes_estimate d else Some n
  | None => hd_total_bytes_estimate d
  end.

(** The closure returned by [make_progress_hook(progress_id)]. *)
Definition hook (progress_id : str) (d : hook_dict) (w : World) : World :=
  match hd_status d with
  | Some st =>
      if bool_decide (st = py "downloading") then
        emit progress_id
          (Downloading
             (strip_ansi (Some (strip (default [] (hd_percent_str d)))))
             (strip_ansi (hd_speed_str d))
             (strip_ansi (hd_eta_str d))
             (hd_downloaded_bytes d)
             (total_or_estimate d)) w
      else if bool_decide (st = py "finished") then emit progress_id Finished w
      else w
  | None => w
  end.

(** ** Paths *)

Definition SLASH : N := 47.
Definition DOT : N := 46.

(** [p.rfind(c)]: the index of the last [c] in [p], or -1. *)
Fixpoint rfind_from (i last : Z) (c : N) (p : str) : Z :=
  match p with
  | [] => last
  | x :: p' => rfind_from (i + 1)%Z (if x =? c then i else last) c p'
  end.

Definition rfind (c : N) (p : str) : Z := rfind_from 0%Z (-1)%Z c p.

(** [os.path.splitext(p)[0]] (POSIX): cut at the last dot of the last
    component, unless that component has only dots before it. *)
Definition splitext_root (p : str) : str :=
  let sepIndex := rfind SLASH p in
  let dotIndex := rfind DOT p in
  if (sepIndex <? dotIndex)%Z then
    let between := drop (Z.to_nat (sepIndex + 1)) (take (Z.to_nat dotIndex) p) in
    if existsb (fun c => negb (c =? DOT)) between
    then take (Z.to_nat dotIndex) p
    else p
  else p.

(** [os.path.join(a, b)] (POSIX). *)
Definition path_join (a b : str) : str :=
  if startswith b [SLASH] then b
  else if negb (truthy a) || bool_decide (last a = Some SLASH) then a ++ b
  else a ++ [SLASH] ++ b.

(** ** The external engine *)

Inductive postprocessor :=
  | FFmpegVideoConvertor (preferedformat : str)
  | FFmpegExtractAudio (preferredcodec preferredquality : str).

(** The options that differ between the calls; the constant ones (quiet,
    color, force_ipv4, ffmpeg_location, extractor_args, http_headers) are
    left out. *)
Record ydl_opts := {
  outtmpl : option str;
  skip_download : bool;
  merge_output_format : option str;
  format : option str;
  postprocessors : list postprocessor;
  postprocessor_args : list str
}.

(** The result of a call that may raise; [Raised e] carries [str(e)]. *)
Inductive py_result (A : Type) :=
  | Returned (a : A)
  | Raised (e : str).
Arguments Returned {A} a.
Arguments Raised {A} e.

(** One run of [ydl.extract_info]: the progress callbacks it makes, the file
    system it leaves, and how it ends. *)
Record engine_run := {
  hook_calls : list hook_dict;
  files_after : gmap str N;
  outcome : py_result info_dict
}.

Record Engine := {
  extract_info : ydl_opts -> str -> bool -> gmap str N -> engine_run;
  prepare_filename : ydl_opts -> info_dict -> py_result str
}.

(** Options of [get_info]. *)
Definition base_opts : ydl_opts :=
  {| outtmpl := None; skip_download := true; merge_output_format := None;
     format := None; postprocessors := []; postprocessor_args := [] |}.

(** Options of [run_download]. *)
Definition download_opts (tmpl option : str) : ydl_opts :=
  if bool_decide (option = py "1") then
    {| outtmpl := Some tmpl; skip_download := false;
       merge_output_format := Some (py "mp4");
       format := Some (py "bestvideo+bestaudio");
       postprocessors := [FFmpegVideoConvertor (py "mp4")];
       postprocessor_args :=
         [py "-c:v"; py "libx264"; py "-c:a"; py "aac"; py "-b:a"; py "192k";
          py "-movflags"; py "faststart"; py "-pix_fmt"; py "yuv420p"] |}
  else
    {| outtmpl := Some tmpl; skip_download := false;
       merge_output_format := None;
       format := Some (py "bestaudio/best");
       postprocessors := [FFmpegExtractAudio (py "mp3") (py "192")];
       postprocessor_args := [] |}.

(** ** The request handlers and the background job *)

Record form := {
  form_url : option str;
  form_option : option str;
  form_progress_id : option str
}.

(** The arguments of a started [Thread(target=run_download, ...)]. *)
Record job := { job_url : str; job_option : str; job_progress_id : str }.

(** The state seen by [start_download]: the world and the threads started so
    far, none of which it runs. *)
Record Server := { world : World; started : list job }.

Definition respond (b : body) (code : N) : response :=
  {| content := b; status := code |}.

Section Handlers.

Variable isalnum : N -> bool.
Variable eng : Engine.
(** [os.getcwd()] when the module is loaded. *)
Variable cwd : str.

Definition DOWNLOAD_DIR : str := path_join cwd (py "downloads").

(** [with YoutubeDL(opts) as ydl: ydl.extract_info(url, download=...)],
    the hook of [progress_id] (if any) being registered in [opts]. *)
Definition call_engine (opts : ydl_opts) (url : str) (download : bool)
    (progress_id : option str) (w : World) : World * py_result info_dict :=
  let run := extract_info eng opts url download (files w) in
  let w0 := {| DOWNLOAD_MAP := DOWNLOAD_MAP w; files := files_after run;
               log := log w ++ [EngineCall url download] |} in
  let w1 :=
    match progress_id with
    | Some room => fold_left (fun w' d => hook room d w') (hook_calls run) w0
    | None => w0
    end in
  (w1, outcome run).

Definition get_info (data_url : option str) (w : World) : response * World :=
  let url := strip (default [] data_url) in
  if negb (truthy url) then
    (respond (JsonError (py "No URL provided")) 400, w)
  else
    let '(w1, r) := call_engine base_opts url false None w in
    match r with
    | Returned info =>
        (respond (JsonInfo (title info) (pick_thumbnail info)) 200, w1)
    | Raised e =>
        (respond (JsonError (py "Could not fetch video info")) 500, w1)
    end.

(** [sanitize_filename(info.get("title", "download"))]; a title of [None]
    is falsy, for which the function returns its default. *)
Definition friendly_title (info : info_dict) : str :=
  match title info with
  | Some t => sanitize_filename isalnum t
  | None => py "download"
  end.

(** The body of the [try] in [run_download]; [uuid_a] and [uuid_b] are the
    values of the two [uuid.uuid4().hex] calls. *)
Definition run_download_body (uuid_a uuid_b : str)
    (url option progress_id : str) (w : World) : World * py_result unit :=
  let ext := if bool_decide (option = py "1") then py "mp4" else py "mp3" in
  let unique_id := take 6 uuid_a in
  let tmpl :=
    path_join DOWNLOAD_DIR (py "%(title)s-" ++ unique_id ++ py ".%(ext)s") in
  let opts := download_opts tmpl option in
  let '(w1, r) := call_engine opts url true (Some progress_id) w in
  match r with
  | Raised e => (w1, Raised e)
  | Returned info =>
      match prepare_filename eng opts info with
      | Raised e => (w1, Raised e)
      | Returned p =>
          let final_path :=
            if bool_decide (option = py "2")
            then splitext_root p ++ py ".mp3"
            else splitext_root p ++ py ".mp4" in
          if negb (path_exists (files w1) final_path)
             || (getsize (files w1) final_path =? 0)
          then
            (emit progress_id
               (Error (py "The downloaded file is empty")) w1, Returned ())
          else
            let download_name := friendly_title info ++ py "." ++ ext in
            let token := uuid_b in
            let w2 :=
              store token {| path := final_path; name := download_name |} w1 in
            (emit progress_id
               (Ready (py "/download/" ++ token) download_name) w2,
             Returned ())
      end
  end.

(** [run_download]: the body, and the [except Exception] clause. *)
Definition run_download (uuid_a uuid_b : str)
    (url option progress_id : str) (w : World) : World :=
  match run_download_body uuid_a uuid_b url option progress_id w with
  | (w', Returned _) => w'
  | (w', Raised e) => emit progress_id (Error e) w'
  end.

End Handlers.

Definition start_download (f : form) (s : Server) : response * Server :=
  let url := strip (default [] (form_url f)) in
  let option := strip (default [] (form_option f)) in
  let progress_id := strip (default [] (form_progress_id f)) in
  if negb (truthy url)
     || negb (bool_decide (option = py "1") || bool_decide (option = py "2"))
     || negb (truthy progress_id)
  then (respond (Text (py "Missing or invalid parameters")) 400, s)
  else
    (respond JsonStarted 200,
     {| world := world s;
        started := started s ++
          [{| job_url := url; job_option := option;
              job_progress_id := progress_id |}] |}).

(** [DOWNLOAD_MAP.pop(token, None)]: the value read, and the map without the
    key, in one operation on the dict. *)
Definition pop (token : str) (w : World) : option entry * World :=
  (DOWNLOAD_MAP w !! token,
   {| DOWNLOAD_MAP := delete token (DOWNLOAD_MAP w); files := files w;
      log := log w |}).

(** The [after_this_request] callback: [os.remove(file_path)], a failure
    being printed and dropped. *)
Definition cleanup (file_path : str) (w : World) : World :=
  {| DOWNLOAD_MAP := DOWNLOAD_MAP w; files := delete file_path (files w);
     log := log w |}.

Definition not_found (msg : string) : response := respond (Text (py msg)) 404.

Definition download_file (token : str) (w : World) : response * World :=
  let '(info, w1) := pop token w in
  match info with
  | None => (not_found "Link expired or invalid", w1)
  | Some e =>
      if negb (path_exists (files w1) (path e)) then
        (not_found "File not found", w1)
      else
        (respond (Attachment (path e) (name e)) 200, cleanup (path e) w1)
  end.

(** ** Concurrent retrievals

    The server handles each request on its own thread.  A [download_file]
    request executes three operations on the shared state, between which
    other threads may run: the [pop] on the dict (one dict operation), the
    existence test with the start of the response, and the cleanup. *)

Inductive dl_thread :=
  | DlStart (token : str)
  | DlPopped (token : str) (info : entry)
  | DlSending (token : str) (info : entry)
  | DlDone (token : str) (r : response).

Definition dl_step (th : dl_thread) (w : World) : dl_thread * World :=
  match th with
  | DlStart token =>
      let '(info, w1) := pop token w in
      match info with
      | None => (DlDone token (not_found "Link expired or invalid"), w1)
      | Some e => (DlPopped token e, w1)
      end
  | DlPopped token e =>
      if negb (path_exists (files w) (path e))
      then (DlDone token (not_found "File not found"), w)
      else (DlSending token e, w)
  | DlSending token e =>
      (DlDone token (respond (Attachment (path e) (name e)) 200),
       cleanup (path e) w)
  | DlDone _ _ => (th, w)
  end.

(** The server with its request threads; [issued] is the set of tokens that
    have been registered so far. *)
Record system := {
  sys_world : World;
  pool : list dl_thread;
  issued : gset str
}.

Definition with_files (fs : gmap str N) (w : World) : World :=
  {| DOWNLOAD_MAP := DOWNLOAD_MAP w; files := fs; log := log w |}.

Inductive sys_step : system -> system -> Prop :=
  (** a client sends a request for some token *)
  | step_arrive w p iss token :
      sys_step {| sys_world := w; pool := p; issued := iss |}
               {| sys_world := w; pool := p ++ [DlStart token];
                  issued := iss |}
  (** some request thread executes its next operation *)
  | step_thread w pre th post iss :
      sys_step {| sys_world := w; pool := pre ++ th :: post; issued := iss |}
               {| sys_world := snd (dl_step th w);
                  pool := pre ++ fst (dl_step th w) :: post; issued := iss |}
  (** a job registers its token, a uuid that was not used before *)
  | step_register w p iss token e :
      token ∉ iss ->
      sys_step {| sys_world := w; pool := p; issued := iss |}
               {| sys_world := store token e w; pool := p;
                  issued := {[token]} ∪ iss |}
  (** jobs and the engine write and remove files *)
  | step_files w p iss fs :
      sys_step {| sys_world := w; pool := p; issued := iss |}
               {| sys_world := with_files fs w; pool := p; issued := iss |}.

Inductive reachable (s0 : system) : system -> Prop :=
  | reach_refl : reachable s0 s0
  | reach_step s s' : reachable s0 s -> sys_step s s' -> reachable s0 s'.

(** A server that has answered no retrieval request yet. *)
Definition initial (s : system) : Prop :=
  pool s = [] /\ issued s = dom (DOWNLOAD_MAP (sys_world s)).

(** The thread obtained the entry of [token] and has not answered 404. *)
Definition holds_entry (token : str) (th : dl_thread) : bool :=
  match th with
  | DlStart _ => false
  | DlPopped t _ | DlSending t _ => bool_decide (t = token)
  | DlDone t r => bool_decide (t = token) && (status r =? 200)
  end.

(** The thread answered the request for [token] with the file. *)
Definition succeeded (token : str) (th : dl_thread) : bool :=
  match th with
  | DlDone t r => bool_decide (t = token) && (status r =? 200)
  | _ => false
  end.

Definition count_if {A} (f : A -> bool) (l : list A) : nat :=
  length (List.filter f l).

(** ** A scheduler for the concurrent server *)

Inductive action :=
  | Arrive (token : str)
  | Run (i : nat)
  | Register (token : str) (e : entry)
  | SetFiles (fs : gmap str N).

(** One step of the server as chosen by the scheduler; a choice that is
    not possible (no such thread, a token that was used) does nothing. *)
Definition do_action (a : action) (s : system) : system :=
  match a with
  | Arrive token =>
      {| sys_world := sys_world s; pool := pool s ++ [DlStart token];
         issued := issued s |}
  | Run i =>
      match pool s !! i with
      | Some th =>
          {| sys_world := snd (dl_step th (sys_world s));
             pool := <[i := fst (dl_step th (sys_world s))]> (pool s);
             issued := issued s |}
      | None => s
      end
  | Register token e =>
      if decide (token ∈ issued s) then s
      else {| sys_world := store token e (sys_world s); pool := pool s;
              issued := {[token]} ∪ issued s |}
  | SetFiles fs =>
      {| sys_world := with_files fs (sys_world s); pool := pool s;
         issued := issued s |}
  end.

Definition run_schedule (acts : list action) (s : system) : system :=
  fold_left (fun s' a => do_action a s') acts s.

(** 1 if the token is in [DOWNLOAD_MAP], 0 if not. *)
Definition registered (w : World) (token : str) : nat :=
  match DOWNLOAD_MAP w !! token with Some _ => 1 | None => 0 end.

(** The invariant of the server: for each token, the map entry and the
    threads that obtained it are at most one in all, and a token that was
    never registered has neither. *)
Definition one_owner (s : system) : Prop :=
  forall token,
    (count_if (holds_entry token) (pool s) + registered (sys_world s) token
     <= 1)%nat
    /\ (token ∉ issued s ->
        registered (sys_world s) token = 0%nat
        /\ count_if (holds_entry token) (pool s) = 0%nat).

(** The answers a finished retrieval can have given. *)
Definition answer_ok (th : dl_thread) : Prop :=
  match th with
  | DlDone _ r =>
      (exists file_path download_name,
         r = respond (Attachment file_path download_name) 200)
      \/ r = not_found "Link expired or invalid"
      \/ r = not_found "File not found"
  | _ => True
  end.

(** A server holding one finished file under one token, and a schedule in
    which two clients ask for it at the same time. *)
Definition sample_entry : entry :=
  {| path := py "/srv/downloads/My Song-0a1b2c.mp3";
     name := py "My-Song-live.mp3" |}.

Definition sample_server : system :=
  {| sys_world :=
       {| DOWNLOAD_MAP := {[ py "feedfacecafebeef" := sample_entry ]};
          files := {[ py "/srv/downloads/My Song-0a1b2c.mp3" := 7 ]};
          log := [] |};
     pool := [];
     issued := {[ py "feedfacecafebeef" ]} |}.

Definition race : list action :=
  [Arrive (py "feedfacecafebeef"); Arrive (py "feedfacecafebeef");
   Run 1; Run 0; Run 0; Run 1; Run 1; Run 1].

(** ** The wording of the spec, for comparison with the code

    The spec describes the step after the per-character cleaning as: every
    run of consecutive whitespace is replaced by a single hyphen.  This is
    that sentence as a function, written without [split] and [join];
    [in_run] says that the previous character was whitespace. *)
Fixpoint spec_collapse_from (in_run : bool) (s : str) : str :=
  match s with
  | [] => []
  | c :: s' =>
      if isspace c then
        if in_run then spec_collapse_from true s'
        else HYPHEN :: spec_collapse_from true s'
      else c :: spec_collapse_from false s'
  end.

Definition spec_collapse_whitespace (s : str) : str :=
  spec_collapse_from false s.

(** ** Predicates used in the statements *)

(** What a sanitized name is made of, given the classification [isalnum]. *)
Definition safe_char (isalnum : N -> bool) (c : N) : Prop :=
  isspace c = false /\ (isalnum c = true \/ c = HYPHEN).

(** A candidate the loop of [pick_thumbnail] does not skip. *)
Definition usable (th : thumb) : bool := opt_truthy (th_url th).


(** [e] is the first of the usable candidates of [ths] with the largest
    area: strictly larger than those before it, at least as large as those
    after it. *)
Definition first_largest (ths : list thumb) (e : thumb) : Prop :=
  exists l1 l2,
    ths = l1 ++ e :: l2 /\ usable e = true
    /\ (forall th, th ∈ l1 -> usable th = true -> (area th < area e)%Z)
    /\ (forall th, th ∈ l2 -> usable th = true -> (area th <= area e)%Z).

(** Sample inputs. *)

Definition mk_thumb (u : str) (w h : Z) : thumb :=
  {| th_url := Some u; th_width := Some w; th_height := Some h |}.

(** Three candidates of areas 10000, 80000 and 45000. *)
Definition three_thumbs (u1 u2 u3 : str) : list thumb :=
  [mk_thumb u1 100 100; mk_thumb u2 400 200; mk_thumb u3 50 900].

Definition info_of_thumbs (ths : list thumb) : info_dict :=
  {| thumbnail := None; thumbnails := ths; video_id := None; title := None |}.

(** An info dict whose direct thumbnail is a scheme-relative URL. *)
Definition scheme_relative_info : info_dict :=
  {| thumbnail := Some (py "//i.ytimg.com/vi/abc/hq.jpg"); thumbnails := [];
     video_id := Some (py "abc"); title := Some (py "abc") |}.

(** The effects a run added to the log. *)
Definition events_since (w w' : World) : list effect :=
  drop (length (log w)) (log w').

Definition is_ready (ef : effect) : bool :=
  match ef with Emit _ (Ready _ _) => true | _ => false end.

Definition is_error (ef : effect) : bool :=
  match ef with Emit _ (Error _) => true | _ => false end.

Definition is_store (ef : effect) : bool :=
  match ef with Store _ _ => true | _ => false end.

Definition is_engine_call (ef : effect) : bool :=
  match ef with EngineCall _ _ => true | _ => false end.

(** A progress event of the hook of [room]. *)
Definition progress_of (room : str) (ef : effect) : bool :=
  match ef with
  | Emit r (Downloading _ _ _ _ _) | Emit r Finished => bool_decide (r = room)
  | _ => false
  end.

(** The template [run_download] hands to the engine. *)
Definition job_opts (cwd uuid_a option : str) : ydl_opts :=
  download_opts
    (path_join (DOWNLOAD_DIR cwd)
       (py "%(title)s-" ++ take 6 uuid_a ++ py ".%(ext)s"))
    option.

(** An engine that behaves the same whatever it is asked. *)
Definition const_engine (run : engine_run) (prepared : py_result str) : Engine :=
  {| extract_info := fun _ _ _ _ => run;
     prepare_filename := fun _ _ => prepared |}.

Definition empty_world : World :=
  {| DOWNLOAD_MAP := ∅; files := ∅; log := [] |}.

Definition sample_info : info_dict :=
  {| thumbnail := None; thumbnails := []; video_id := Some (py "abc");
     title := Some (py "My Song (live)") |}.

Definition downloading_tick : hook_dict :=
  {| hd_status := Some (py "downloading");
     hd_percent_str := Some (py " 50.0%"); hd_speed_str := Some (py "1MiB/s");
     hd_eta_str := Some (py "00:01"); hd_downloaded_bytes := Some 10%Z;
     hd_total_bytes := Some 20%Z; hd_total_bytes_estimate := None |}.

(** The engine wrote [/srv/downloads/My Song-0a1b2c.mp3] (7 bytes). *)
Definition good_run : engine_run :=
  {| hook_calls := [downloading_tick];
     files_after := {[ py "/srv/downloads/My Song-0a1b2c.mp3" := 7 ]};
     outcome := Returned sample_info |}.

(** The engine returned but left no file. *)
Definition no_file_run : engine_run :=
  {| hook_calls := [downloading_tick]; files_after := ∅;
     outcome := Returned sample_info |}.

Definition failing_run : engine_run :=
  {| hook_calls := [downloading_tick]; files_after := ∅;
     outcome := Raised (py "ERROR: Unsupported URL") |}.

Definition sample_job (e : Engine) (option : str) : World :=
  run_download isalnum_ascii e (py "/srv")
    (py "0a1b2c3d4e5f") (py "feedfacecafebeef")
    (py "https://example.com/v") option (py "room1") empty_world.

(** ** Socket rooms and [handle_subscribe] *)

(** The rooms of the socket server: the connections (session ids) that
    joined each room. *)
Definition members (rooms : gmap str (gset N)) (room : str) : gset N :=
  default ∅ (rooms !! room).

(** [join_room(room)] for the connection [sid]. *)
Definition join_room (room : str) (sid : N) (rooms : gmap str (gset N))
    : gmap str (gset N) :=
  <[room := {[sid]} ∪ members rooms room]> rooms.

(** The acknowledgment dict: [{"ok": True}] or [{"ok": False, "error": msg}]. *)
Inductive ack :=
  | AckOk
  | AckError (msg : str).

(** [handle_subscribe(data)] on the connection [sid]; [progress_id] is
    [(data or {}).get("progress_id")]. *)
Definition handle_subscribe (progress_id : option str) (sid : N)
    (rooms : gmap str (gset N)) : ack * gmap str (gset N) :=
  match progress_id with
  | Some room =>
      if truthy room then (AckOk, join_room room sid rooms)
      else (AckError (py "missing progress_id"), rooms)
  | None => (AckError (py "missing progress_id"), rooms)
  end.

(** What a connection receives of a run of effects: the events emitted to
    the rooms it is a member of, in order. *)
Definition received (rooms : gmap str (gset N)) (sid : N) (ef : effect)
    : option ProgressEvent :=
  match ef with
  | Emit room ev => if bool_decide (sid ∈ members rooms room) then Some ev else None
  | _ => None
  end.

Definition delivered (rooms : gmap str (gset N)) (sid : N)
    (evs : list effect) : list ProgressEvent :=
  omap (received rooms sid) evs.

(** Every event of a run of effects, whoever receives it. *)
Definition emitted (evs : list effect) : list ProgressEvent :=
  omap (fun ef => match ef with Emit _ ev => Some ev | _ => None end) evs.

(** ** More predicates used in the statements *)

(** An SGR escape sequence: ESC, [[], parameters made of digits and
    semicolons, [m]. *)
Definition sgr (params : str) : str := [ESC; 91] ++ params ++ [109].

(** The effect is not an event, or is an event for [room]. *)
Definition only_to (room : str) (ef : effect) : Prop :=
  forall r ev, ef = Emit r ev -> r = room.

(** The string has no whitespace at either end. *)
Definition trimmed (s : str) : Prop :=
  (forall c, head s = Some c -> isspace c = false)
  /\ (forall c, last s = Some c -> isspace c = false).

(** What [start_download] guarantees of a job it starts. *)
Definition valid_job (j : job) : Prop :=
  job_url j <> [] /\ trimmed (job_url j)
  /\ (job_option j = py "1" \/ job_option j = py "2")
  /\ job_progress_id j <> [] /\ trimmed (job_progress_id j).

(** The extension of a format option accepted by [start_download]. *)
Definition ext_of (fmt : str) : str :=
  if bool_decide (fmt = py "1") then py "mp4" else py "mp3".

(** The name offered to the browser: [f"{title}.{ext}"]. *)
Definition download_name (isalnum : N -> bool) (info : info_dict)
    (fmt : str) : str :=
  friendly_title isalnum info ++ py "." ++ ext_of fmt.

(** The file the job looks for, for a format accepted by [start_download]:
    the engine's file name with the extension replaced. *)
Definition final_path_of (p fmt : str) : str :=
  splitext_root p ++ py "." ++ ext_of fmt.

Definition BACKSLASH : N := 92.

(** A video job whose engine left a file of 9 bytes. *)
Definition good_video_run : engine_run :=
  {| hook_calls := [downloading_tick];
     files_after := {[ py "/srv/downloads/My Song-0a1b2c.mp4" := 9 ]};
     outcome := Returned sample_info |}.

Definition good_engine : Engine :=
  const_engine good_run (Returned (py "/srv/downloads/My Song-0a1b2c.webm")).

(** * Properties *)

(** ** Strings *)

Ltac bool_to_prop :=
  repeat match goal with
    | H : _ && _ = true |- _ => apply andb_true_iff in H; destruct H
    | H : _ || _ = true |- _ => apply orb_true_iff in H; destruct H
    | H : _ || _ = false |- _ => apply orb_false_iff in H; destruct H
    | H : _ && _ = false |- _ => apply andb_false_iff in H; destruct H
    | H : negb _ = true |- _ => apply negb_true_iff in H
    | H : negb _ = false |- _ => apply negb_false_iff in H
    | H : (_ <=? _) = true |- _ => apply N.leb_le in H
    | H : (_ <=? _) = false |- _ => apply N.leb_gt in H
    | H : (_ <? _) = true |- _ => apply N.ltb_lt in H
    | H : (_ <? _) = false |- _ => apply N.ltb_ge in H
    | H : (_ =? _) = true |- _ => apply N.eqb_eq in H
    | H : (_ =? _) = false |- _ => apply N.eqb_neq in H
    end.

(** The code on sample inputs. *)

Example sanitize_punctuation :
  sanitize_filename isalnum_ascii (py "  Hello,   World!! -- (2024) ")
  = py "Hello-World----2024".
Proof. vm_compute. reflexivity. Qed.

(** A title made of two emoji (U+1F600, U+1F3B5) and a space. *)
Example sanitize_emoji_only :
  sanitize_filename isalnum_ascii [128512; 32; 127925] = py "download".
Proof. vm_compute. reflexivity. Qed.

Example sanitize_edge_hyphens :
  sanitize_filename isalnum_ascii (py "-- a  b --") = py "a-b".
Proof. vm_compute. reflexivity. Qed.

Example split_tabs_and_newlines :
  split (py "one" ++ [9; 10] ++ py "two" ++ [8195] ++ py "three ")
  = [py "one"; py "two"; py "three"].
Proof. vm_compute. reflexivity. Qed.

Example strip_ansi_colours :
  strip_ansi (Some ([ESC] ++ py "[0;32m 50.0%" ++ [ESC] ++ py "[0m" ++ [ESC]
                    ++ py "[1x"))
  = py " 50.0%" ++ [ESC] ++ py "[1x".
Proof. vm_compute. reflexivity. Qed.

Example splitext_root_examples :
  splitext_root (py "/srv/downloads/My Song-0a1b2c.webm")
  = py "/srv/downloads/My Song-0a1b2c"
  /\ splitext_root (py "/srv/down.loads/song") = py "/srv/down.loads/song"
  /\ splitext_root (py "/srv/.hidden") = py "/srv/.hidden"
  /\ splitext_root (py "a.tar.gz") = py "a.tar".
Proof. vm_compute. repeat split; reflexivity. Qed.

Example path_join_examples :
  path_join (py "/srv") (py "downloads") = py "/srv/downloads"
  /\ path_join (py "/srv/") (py "downloads") = py "/srv/downloads"
  /\ path_join (py "/srv") (py "/abs") = py "/abs".
Proof. vm_compute. repeat split; reflexivity. Qed.

Lemma isspace_space : isspace SPACE = true.
Proof. reflexivity. Qed.

Lemma isspace_hyphen : isspace HYPHEN = false.
Proof. reflexivity. Qed.

Lemma isalnum_ascii_agrees : agrees_on_ascii isalnum_ascii.
Proof.
  intros c Hc. unfold isalnum_ascii.
  apply N.ltb_lt in Hc. rewrite Hc. reflexivity.
Qed.

Lemma ascii_isalnum_not_space c : ascii_isalnum c = true -> isspace c = false.
Proof.
  unfold ascii_isalnum, isspace. intros H.
  repeat (apply orb_false_iff; split);
    try apply andb_false_iff;
    bool_to_prop;
    first [ apply N.eqb_neq; lia
          | left; apply N.leb_gt; lia
          | right; apply N.leb_gt; lia ].
Qed.

Lemma isalnum_ascii_never_space : alnum_never_space isalnum_ascii.
Proof.
  intros c H. unfold isalnum_ascii in H.
  apply andb_true_iff in H as [_ H]. by apply ascii_isalnum_not_space.
Qed.

Lemma Forall_lstrip_by (P : N -> Prop) p s :
  Forall P s -> Forall P (lstrip_by p s).
Proof.
  induction 1 as [|c s Hc Hs IH]; simpl; [constructor|].
  destruct (p c); [exact IH | by constructor].
Qed.

Lemma Forall_strip_by (P : N -> Prop) p s :
  Forall P s -> Forall P (strip_by p s).
Proof.
  intros H. unfold strip_by, rstrip_by.
  apply Forall_rev, Forall_lstrip_by, Forall_rev, Forall_lstrip_by, H.
Qed.

Lemma Forall_flush (Q : N -> Prop) cur rest :
  Forall Q cur -> Forall (Forall Q) rest -> Forall (Forall Q) (flush cur rest).
Proof.
  intros Hc Hr. destruct cur as [|x cur]; [exact Hr|].
  change (flush (x :: cur) rest) with (rev (x :: cur) :: rest).
  constructor; [|exact Hr]. by apply Forall_rev.
Qed.

(** The words of [split] are made of the non-whitespace characters. *)
Lemma Forall_split_from (P : N -> Prop) s : forall cur,
  Forall P s ->
  Forall (fun c => P c /\ isspace c = false) cur ->
  Forall (Forall (fun c => P c /\ isspace c = false)) (split_from cur s).
Proof.
  induction s as [|c s IH]; intros cur Hs Hcur; simpl.
  - apply Forall_flush; [exact Hcur | constructor].
  - inversion Hs as [|? ? Hc Hs']; subst.
    destruct (isspace c) eqn:E.
    + apply Forall_flush; [exact Hcur|]. apply IH; [exact Hs' | constructor].
    + apply IH; [exact Hs'|]. constructor; [split|]; assumption.
Qed.

Lemma Forall_join (P : N -> Prop) sep ws :
  Forall P sep -> Forall (Forall P) ws -> Forall P (join sep ws).
Proof.
  intros Hsep. induction 1 as [|w ws Hw Hws IH]; simpl; [constructor|].
  destruct ws as [|w' ws']; [exact Hw|].
  apply Forall_app; split; [exact Hw|].
  apply Forall_app; split; [exact Hsep | exact IH].
Qed.

Lemma lstrip_by_head p s c : head (lstrip_by p s) = Some c -> p c = false.
Proof.
  induction s as [|x s IH]; simpl; [discriminate|].
  destruct (p x) eqn:E; [exact IH|].
  simpl. intros [= <-]. exact E.
Qed.

Lemma lstrip_by_id p s :
  (forall c, head s = Some c -> p c = false) -> lstrip_by p s = s.
Proof.
  destruct s as [|x s]; simpl; [reflexivity|].
  intros H. by rewrite (H x eq_refl).
Qed.

Lemma head_rev_last (s : str) : head (rev s) = last s.
Proof.
  induction s as [|x s IH] using rev_ind; [reflexivity|].
  rewrite rev_app_distr, last_snoc. reflexivity.
Qed.

Lemma rstrip_by_last p s c : last (rstrip_by p s) = Some c -> p c = false.
Proof.
  unfold rstrip_by. rewrite <- head_rev_last, rev_involutive.
  apply lstrip_by_head.
Qed.

(** Removing a suffix keeps the first character, if one is left. *)
Lemma rstrip_by_head p s c :
  head (rstrip_by p s) = Some c -> head s = Some c.
Proof.
  unfold rstrip_by.
  induction s as [|x s IH] using rev_ind; [discriminate|].
  rewrite rev_app_distr. simpl.
  destruct (p x).
  - intros H. specialize (IH H). destruct s; [discriminate|exact IH].
  - change (rev (x :: rev s)) with (rev (rev s) ++ [x]).
    rewrite rev_involutive. auto.
Qed.

Lemma strip_by_head p s c : head (strip_by p s) = Some c -> p c = false.
Proof.
  intros H. apply rstrip_by_head in H. by apply lstrip_by_head in H.
Qed.

Lemma strip_by_last p s c : last (strip_by p s) = Some c -> p c = false.
Proof. apply rstrip_by_last. Qed.

Lemma rstrip_by_id p s :
  (forall c, last s = Some c -> p c = false) -> rstrip_by p s = s.
Proof.
  intros H. unfold rstrip_by. rewrite lstrip_by_id.
  - apply rev_involutive.
  - intros c Hc. rewrite head_rev_last in Hc. by apply H.
Qed.

Lemma lstrip_by_nil_iff p s :
  lstrip_by p s = [] <-> Forall (fun c => p c = true) s.
Proof.
  induction s as [|c s IH]; simpl.
  - split; [constructor | reflexivity].
  - destruct (p c) eqn:E.
    + rewrite IH. split; [by constructor|].
      intros H. by inversion H.
    + split; [discriminate|]. intros H. inversion H; congruence.
Qed.

Lemma lstrip_by_Forall_nil p s :
  Forall (fun c => p c = true) (lstrip_by p s) -> lstrip_by p s = [].
Proof.
  intros H. destruct (lstrip_by p s) as [|c r] eqn:E; [reflexivity|].
  assert (Hc : p c = false) by (apply (lstrip_by_head p s); by rewrite E).
  inversion H; congruence.
Qed.

(** A string is empty after trimming exactly when all of its characters
    are among those trimmed. *)
Lemma strip_by_nil_iff p s :
  strip_by p s = [] <-> Forall (fun c => p c = true) s.
Proof.
  unfold strip_by, rstrip_by. split.
  - intros H. apply (f_equal (@rev N)) in H.
    rewrite rev_involutive in H. cbn in H.
    apply lstrip_by_nil_iff, Forall_rev in H. rewrite rev_involutive in H.
    apply lstrip_by_nil_iff. by apply lstrip_by_Forall_nil.
  - intros H. apply lstrip_by_nil_iff in H. by rewrite H.
Qed.

Lemma head_take {A} (l : list A) n : (0 < n)%nat -> head (take n l) = head l.
Proof. destruct n; [lia|]. by destruct l. Qed.

(** ** [sanitize_filename] *)

Section SanitizeFacts.

Variable isalnum : N -> bool.
Hypothesis ascii_ok : agrees_on_ascii isalnum.
Hypothesis not_space : alnum_never_space isalnum.

Lemma clean_char_kept ch :
  isalnum (clean_char isalnum ch) = true
  \/ clean_char isalnum ch = HYPHEN
  \/ clean_char isalnum ch = SPACE.
Proof.
  unfold clean_char.
  destruct (isalnum ch) eqn:Ea; simpl; [by left|].
  destruct (ch =? SPACE) eqn:Es; simpl.
  { apply N.eqb_eq in Es. by right; right. }
  destruct (ch =? HYPHEN) eqn:Eh; simpl.
  { apply N.eqb_eq in Eh. by right; left. }
  by right; right.
Qed.

Lemma kept_not_space_safe c :
  (isalnum c = true \/ c = HYPHEN \/ c = SPACE) /\ isspace c = false ->
  safe_char isalnum c.
Proof.
  intros [[Ha | [-> | ->]] Hs]; split; auto.
  rewrite isspace_space in Hs. discriminate.
Qed.

Lemma download_safe : Forall (safe_char isalnum) (py "download").
Proof.
  assert (Hl : forall c, 97 <= c <= 122 -> safe_char isalnum c).
  { intros c Hc.
    assert (Ha : isalnum c = true).
    { rewrite ascii_ok by lia. unfold ascii_isalnum.
      apply orb_true_iff; right.
      apply andb_true_iff; split; apply N.leb_le; lia. }
    split; [by apply not_space | by left]. }
  let s := eval vm_compute in (py "download") in
  change (py "download") with s.
  repeat (apply Forall_cons; split; [apply Hl; lia|]). constructor.
Qed.

Lemma base_safe name :
  Forall (safe_char isalnum) (join [HYPHEN] (split (map (clean_char isalnum) name))).
Proof.
  apply Forall_join.
  - constructor; [|constructor]. split; [reflexivity | by right].
  - unfold split.
    eapply Forall_impl.
    + apply (Forall_split_from
               (fun c => isalnum c = true \/ c = HYPHEN \/ c = SPACE));
        [|constructor].
      apply Forall_map, Forall_forall. intros c _. apply clean_char_kept.
    + intros w Hw. eapply Forall_impl; [exact Hw|].
      intros c Hc. by apply kept_not_space_safe.
Qed.

Lemma sanitize_filename_length name :
  (length (sanitize_filename isalnum name) <= 120)%nat.
Proof.
  unfold sanitize_filename. destruct (truthy name).
  - rewrite length_take. lia.
  - vm_compute. lia.
Qed.

Lemma sanitize_filename_nonempty name : sanitize_filename isalnum name <> [].
Proof.
  unfold sanitize_filename, str_or.
  destruct (truthy name); [|discriminate].
  destruct (strip_hyphens _) as [|c s]; simpl; discriminate.
Qed.

(** The fallback: a title that cleans to nothing gives the default name. *)
Lemma sanitize_filename_default name :
  strip_hyphens (join [HYPHEN] (split (map (clean_char isalnum) name))) = [] ->
  sanitize_filename isalnum name = py "download".
Proof.
  intros H. unfold sanitize_filename, str_or. rewrite H.
  by destruct (truthy name).
Qed.

Lemma sanitize_filename_no_leading_hyphen name :
  head (sanitize_filename isalnum name) <> Some HYPHEN.
Proof.
  unfold sanitize_filename, str_or.
  destruct (truthy name); [|discriminate].
  rewrite head_take by lia.
  destruct (truthy _); [|discriminate].
  intros H. apply strip_by_head in H. discriminate.
Qed.

(** Without truncation the result does not end in a hyphen either. *)
Lemma sanitize_filename_no_trailing_hyphen_short name :
  (length (strip_hyphens
             (join [HYPHEN] (split (map (clean_char isalnum) name)))) <= 120)%nat ->
  last (sanitize_filename isalnum name) <> Some HYPHEN.
Proof.
  intros Hlen. unfold sanitize_filename, str_or.
  destruct (truthy name); [|discriminate].
  destruct (truthy _).
  - rewrite take_ge by exact Hlen.
    intros H. apply strip_by_last in H. discriminate.
  - discriminate.
Qed.

End SanitizeFacts.

Lemma sanitize_filename_ext f g name :
  (forall c, c ∈ name -> f c = g c) ->
  sanitize_filename f name = sanitize_filename g name.
Proof.
  intros H. unfold sanitize_filename.
  replace (map (clean_char f) name) with (map (clean_char g) name);
    [reflexivity|].
  apply map_ext_in. intros c Hc. unfold clean_char.
  rewrite (H c); [reflexivity|]. by apply list_elem_of_In.
Qed.

Lemma sanitize_filename_on_ascii isalnum name :
  agrees_on_ascii isalnum ->
  Forall (fun c => c < 128) name ->
  sanitize_filename isalnum name = sanitize_filename isalnum_ascii name.
Proof.
  intros Ha Hn. apply sanitize_filename_ext. intros c Hc.
  rewrite Forall_forall in Hn. specialize (Hn c Hc).
  rewrite Ha by exact Hn. unfold isalnum_ascii.
  apply N.ltb_lt in Hn. by rewrite Hn.
Qed.

(** *** Runs of whitespace *)

Lemma lstrip_by_pad p pre s :
  Forall (fun c => p c = true) pre -> lstrip_by p (pre ++ s) = lstrip_by p s.
Proof.
  induction 1 as [|c pre Hc _ IH]; [reflexivity|]. simpl. by rewrite Hc.
Qed.

Lemma lstrip_by_app p x y :
  lstrip_by p (x ++ y)
  = match lstrip_by p x with [] => lstrip_by p y | r => r ++ y end.
Proof.
  induction x as [|c x IH]; [reflexivity|].
  simpl. destruct (p c); [exact IH | reflexivity].
Qed.

Lemma rstrip_by_pad p s post :
  Forall (fun c => p c = true) post -> rstrip_by p (s ++ post) = rstrip_by p s.
Proof.
  intros H. unfold rstrip_by.
  rewrite rev_app_distr, lstrip_by_pad; [reflexivity|]. by apply Forall_rev.
Qed.

(** Characters of the stripped kind put around a string do not change
    what is left of it. *)
Lemma strip_by_pad p pre x post :
  Forall (fun c => p c = true) pre -> Forall (fun c => p c = true) post ->
  strip_by p (pre ++ x ++ post) = strip_by p x.
Proof.
  intros Hpre Hpost. unfold strip_by.
  rewrite (lstrip_by_pad p pre _ Hpre), lstrip_by_app.
  destruct (lstrip_by p x) as [|c r] eqn:E.
  - by rewrite (proj2 (lstrip_by_nil_iff p post) Hpost).
  - by apply rstrip_by_pad.
Qed.

Lemma split_from_nonempty s : forall cur, cur <> [] -> split_from cur s <> [].
Proof.
  induction s as [|c s IH]; intros cur Hc; cbn [split_from].
  - destruct cur; [congruence | discriminate].
  - destruct (isspace c); [|apply IH; discriminate].
    destruct cur; [congruence | discriminate].
Qed.

(** The words of [split], joined by hyphens, are the string with its
    whitespace runs replaced by hyphens, but for the hyphen of a run at
    the end: in a word ([cur] not empty) and in a run. *)
Lemma spec_collapse_split_from s :
  (forall cur, cur <> [] ->
     exists post, (post = [] \/ post = [HYPHEN])
       /\ rev cur ++ spec_collapse_from false s
          = join [HYPHEN] (split_from cur s) ++ post)
  /\ (exists post, (post = [] \/ post = [HYPHEN])
        /\ (split_from [] s = [] -> post = [])
        /\ spec_collapse_from true s
           = join [HYPHEN] (split_from [] s) ++ post).
Proof.
  induction s as [|c s [IH1 IH2]].
  - split.
    + intros cur Hc. exists []. split; [by left|].
      destruct cur as [|x cur]; [congruence|].
      cbn [split_from spec_collapse_from].
      change (flush (x :: cur) []) with [rev (x :: cur)]. reflexivity.
    + exists []. repeat split; auto.
  - cbn [split_from spec_collapse_from]. destruct (isspace c) eqn:Ec.
    + split.
      * intros cur Hc. destruct cur as [|x cur]; [congruence|].
        change (flush (x :: cur) (split_from [] s))
          with (rev (x :: cur) :: split_from [] s).
        destruct IH2 as (post' & Hedge & Hnil & Hcol). rewrite Hcol.
        destruct (split_from [] s) as [|w ws] eqn:Ew.
        -- rewrite (Hnil eq_refl). exists [HYPHEN]. split; [by right|].
           reflexivity.
        -- exists post'. split; [exact Hedge|].
           change (join [HYPHEN] (rev (x :: cur) :: w :: ws))
             with (rev (x :: cur) ++ [HYPHEN] ++ join [HYPHEN] (w :: ws)).
           by rewrite <- !app_assoc.
      * change (flush [] (split_from [] s)) with (split_from [] s). exact IH2.
    + split.
      * intros cur Hc.
        destruct (IH1 (c :: cur)) as (post & Hedge & Hcol); [discriminate|].
        exists post. split; [exact Hedge|]. rewrite <- Hcol.
        change (rev (c :: cur)) with (rev cur ++ [c]). by rewrite <- app_assoc.
      * destruct (IH1 [c]) as (post & Hedge & Hcol); [discriminate|].
        exists post. split; [exact Hedge|]. split; [|exact Hcol].
        intros H. by apply split_from_nonempty in H.
Qed.

Lemma spec_collapse_join_split s :
  exists pre post,
    (pre = [] \/ pre = [HYPHEN]) /\ (post = [] \/ post = [HYPHEN])
    /\ spec_collapse_whitespace s = pre ++ join [HYPHEN] (split s) ++ post.
Proof.
  unfold spec_collapse_whitespace, split. destruct s as [|c s].
  - exists [], []. auto.
  - cbn [spec_collapse_from split_from]. destruct (isspace c).
    + destruct (proj2 (spec_collapse_split_from s)) as (post & He & _ & Hc).
      exists [HYPHEN], post. repeat split; auto. by rewrite Hc.
    + destruct (proj1 (spec_collapse_split_from s) [c])
        as (post & He & Hc); [discriminate|].
      exists [], post. repeat split; auto.
Qed.

(** Once the hyphens at the ends are stripped, [split] and [join] do what
    the spec says: each run of whitespace has become one hyphen. *)
Lemma strip_hyphens_spec_collapse s :
  strip_hyphens (join [HYPHEN] (split s))
  = strip_hyphens (spec_collapse_whitespace s).
Proof.
  destruct (spec_collapse_join_split s) as (pre & post & Hpre & Hpost & ->).
  unfold strip_hyphens. symmetry. apply strip_by_pad.
  - destruct Hpre as [-> | ->]; repeat constructor.
  - destruct Hpost as [-> | ->]; repeat constructor.
Qed.

Lemma spec_collapse_word w rest :
  Forall (fun c => isspace c = false) w ->
  spec_collapse_from false (w ++ rest) = w ++ spec_collapse_from false rest.
Proof.
  induction 1 as [|c w Hc _ IH]; [reflexivity|].
  cbn [app spec_collapse_from]. by rewrite Hc, IH.
Qed.

Lemma spec_collapse_run ws rest :
  Forall (fun c => isspace c = true) ws ->
  spec_collapse_from true (ws ++ rest) = spec_collapse_from true rest.
Proof.
  induction 1 as [|c ws Hc _ IH]; [reflexivity|].
  cbn [app spec_collapse_from]. by rewrite Hc.
Qed.

(** Two words with a run of whitespace between them. *)
Lemma spec_collapse_two_words w1 ws w2 :
  Forall (fun c => isspace c = false) w1 ->
  Forall (fun c => isspace c = true) ws -> ws <> [] ->
  Forall (fun c => isspace c = false) w2 -> w2 <> [] ->
  spec_collapse_whitespace (w1 ++ ws ++ w2) = w1 ++ [HYPHEN] ++ w2.
Proof.
  intros H1 Hws Hne H2 Hne2. unfold spec_collapse_whitespace.
  rewrite (spec_collapse_word w1 _ H1). f_equal.
  destruct ws as [|c ws]; [congruence|].
  inversion Hws as [|? ? Hc Hws']; subst.
  cbn [app spec_collapse_from]. rewrite Hc. f_equal.
  rewrite (spec_collapse_run ws w2 Hws').
  destruct w2 as [|c2 w2]; [congruence|].
  inversion H2 as [|? ? Hc2 H2']; subst.
  cbn [spec_collapse_from]. rewrite Hc2. f_equal.
  rewrite <- (app_nil_r w2) at 1.
  rewrite (spec_collapse_word w2 [] H2'). apply app_nil_r.
Qed.

Lemma clean_word isalnum w :
  Forall (fun c => isalnum c = true) w -> map (clean_char isalnum) w = w.
Proof.
  induction 1 as [|c w Hc _ IH]; [reflexivity|].
  cbn [map]. unfold clean_char at 1. by rewrite Hc, IH.
Qed.

(** Characters that are neither alphanumeric nor hyphens are all cleaned
    to whitespace. *)
Lemma clean_separator isalnum sep :
  Forall (fun c => isalnum c = false /\ c <> HYPHEN) sep ->
  Forall (fun c => isspace c = true) (map (clean_char isalnum) sep).
Proof.
  intros H. apply Forall_map. eapply Forall_impl; [exact H|].
  intros c [Ha Hh]. unfold clean_char. rewrite Ha. cbn [orb].
  destruct (c =? SPACE) eqn:Es; [apply N.eqb_eq in Es; by subst|].
  apply N.eqb_neq in Hh. by rewrite Hh.
Qed.

(** Alphanumeric words with a hyphen between them have no hyphen to strip
    at the ends. *)
Lemma strip_hyphens_two_words isalnum w1 w2 :
  isalnum HYPHEN = false ->
  w1 <> [] -> Forall (fun c => isalnum c = true) w1 ->
  w2 <> [] -> Forall (fun c => isalnum c = true) w2 ->
  strip_hyphens (w1 ++ [HYPHEN] ++ w2) = w1 ++ [HYPHEN] ++ w2.
Proof.
  intros Hhy Hne1 Hw1 Hne2 Hw2.
  assert (Hnh : forall c, isalnum c = true -> is_hyphen c = false).
  { intros c Hc. apply N.eqb_neq. intros ->. congruence. }
  unfold strip_hyphens, strip_by. rewrite lstrip_by_id.
  - apply rstrip_by_id. intros c Hc. apply Hnh.
    apply last_Some in Hc as [l' Hl'].
    destruct w2 as [|z w2 _] using rev_ind; [congruence|].
    apply Forall_app in Hw2 as [_ Hz]. inversion Hz; subst.
    rewrite !app_assoc in Hl'. apply app_inj_tail in Hl' as [_ ->].
    assumption.
  - intros c Hc. apply Hnh. destruct w1 as [|x w1]; [congruence|].
    inversion Hw1; subst. by injection Hc as <-.
Qed.

(** C10: for every input string, the result of [sanitize_filename] contains
    no whitespace character, and each of its characters is alphanumeric or
    a hyphen; and the result is what the spec describes: after the
    per-character cleaning (which keeps spaces) every run of whitespace is
    replaced by a single hyphen, then the hyphens at the ends are stripped,
    the default is taken if nothing is left and the name is cut at 120
    characters.  In particular two alphanumeric words separated by any run
    of characters that are not kept as they are come out joined by exactly
    one hyphen. *)
Theorem sanitize_filename_no_whitespace (isalnum : N -> bool) (name : str) :
  agrees_on_ascii isalnum ->
  alnum_never_space isalnum ->
  Forall (fun c => isspace c = false /\ (isalnum c = true \/ c = HYPHEN))
         (sanitize_filename isalnum name)
  /\ sanitize_filename isalnum name
     = take 120
         (str_or
            (strip_hyphens
               (spec_collapse_whitespace
                  (map (fun ch =>
                          if isalnum ch || (ch =? SPACE) || (ch =? HYPHEN)
                          then ch else SPACE) name)))
            (py "download"))
  /\ (forall w1 sep w2,
        name = w1 ++ sep ++ w2 ->
        w1 <> [] -> Forall (fun c => isalnum c = true) w1 ->
        sep <> [] -> Forall (fun c => isalnum c = false /\ c <> HYPHEN) sep ->
        w2 <> [] -> Forall (fun c => isalnum c = true) w2 ->
        sanitize_filename isalnum name = take 120 (w1 ++ [HYPHEN] ++ w2)).
Proof.
  intros Ha Hs.
  assert (Halpha : Forall (safe_char isalnum) (sanitize_filename isalnum name)).
  { unfold sanitize_filename.
    destruct (truthy name); [|by apply download_safe].
    apply Forall_take. unfold str_or.
    destruct (truthy _); [|by apply download_safe].
    apply Forall_strip_by. by apply base_safe. }
  assert (Hspec : sanitize_filename isalnum name
                  = take 120
                      (str_or
                         (strip_hyphens
                            (spec_collapse_whitespace
                               (map (clean_char isalnum) name)))
                         (py "download"))).
  { unfold sanitize_filename. destruct name as [|c name]; [reflexivity|].
    cbn [truthy]. by rewrite strip_hyphens_spec_collapse. }
  split; [exact Halpha|]. split; [exact Hspec|].
  intros w1 sep w2 -> Hne1 Hw1 Hnes Hsep Hne2 Hw2.
  rewrite Hspec. f_equal.
  rewrite !map_app, (clean_word isalnum w1 Hw1), (clean_word isalnum w2 Hw2).
  rewrite spec_collapse_two_words.
  - rewrite (strip_hyphens_two_words isalnum w1 w2); try assumption.
    + unfold str_or. destruct w1; [congruence | reflexivity].
    + by rewrite Ha.
  - eapply Forall_impl; [exact Hw1|]. intros c Hc. by apply Hs.
  - by apply clean_separator.
  - destruct sep; [congruence | discriminate].
  - eapply Forall_impl; [exact Hw2|]. intros c Hc. by apply Hs.
  - exact Hne2.
Qed.

Lemma sanitize_filename_no_whitespace_witness :
  agrees_on_ascii isalnum_ascii /\ alnum_never_space isalnum_ascii
  /\ Forall (fun c => isspace c = false
                      /\ (isalnum_ascii c = true \/ c = HYPHEN))
       (sanitize_filename isalnum_ascii (py "Big Buck  Bunny (4K) - trailer!"))
  /\ sanitize_filename isalnum_ascii (py "Big" ++ py " ,  " ++ py "Buck")
     = py "Big-Buck".
Proof.
  split; [exact isalnum_ascii_agrees|].
  split; [exact isalnum_ascii_never_space|].
  split.
  - apply (sanitize_filename_no_whitespace isalnum_ascii);
      [exact isalnum_ascii_agrees | exact isalnum_ascii_never_space].
  - change (py "Big-Buck") with (take 120 (py "Big" ++ [HYPHEN] ++ py "Buck")).
    apply (proj2 (proj2 (sanitize_filename_no_whitespace isalnum_ascii
                           (py "Big" ++ py " ,  " ++ py "Buck")
                           isalnum_ascii_agrees isalnum_ascii_never_space))
             (py "Big") (py " ,  ") (py "Buck")).
    + reflexivity.
    + discriminate.
    + repeat (constructor; [reflexivity|]). constructor.
    + discriminate.
    + repeat (constructor; [by split|]). constructor.
    + discriminate.
    + repeat (constructor; [reflexivity|]). constructor.
Defined.

(** C5: the title made of 119 letters [a], a space and a [b] is cleaned to
    119 letters, a hyphen and [b], which has no hyphen to strip, and is then
    cut after 120 characters: the result of [sanitize_filename] ends in a
    hyphen, against the claim that it has no trailing hyphen. *)
Theorem sanitize_filename_trailing_hyphen (isalnum : N -> bool) :
  agrees_on_ascii isalnum ->
  sanitize_filename isalnum (repeat 97 119 ++ py " b")
  = repeat 97 119 ++ [HYPHEN]
  /\ last (sanitize_filename isalnum (repeat 97 119 ++ py " b")) = Some HYPHEN.
Proof.
  intros Ha.
  assert (E : sanitize_filename isalnum (repeat 97 119 ++ py " b")
              = repeat 97 119 ++ [HYPHEN]).
  { rewrite sanitize_filename_on_ascii; [| exact Ha |].
    - vm_compute. reflexivity.
    - apply Forall_app; split.
      + apply Forall_forall. intros c Hc.
        apply list_elem_of_In, repeat_spec in Hc. subst c. reflexivity.
      + repeat constructor. }
  split; [exact E|]. rewrite E. vm_compute. reflexivity.
Qed.

Lemma sanitize_filename_trailing_hyphen_witness :
  agrees_on_ascii isalnum_ascii
  /\ last (sanitize_filename isalnum_ascii (repeat 97 119 ++ py " b"))
     = Some HYPHEN.
Proof.
  split; [exact isalnum_ascii_agrees|].
  exact (proj2 (sanitize_filename_trailing_hyphen isalnum_ascii
                  isalnum_ascii_agrees)).
Defined.

(** ** [pick_thumbnail] *)

Lemma norm_truthy u : truthy u = true -> truthy (norm u) = true.
Proof.
  unfold norm. destruct (startswith u (py "//")); [reflexivity | auto].
Qed.

Lemma usable_url th :
  usable th = true -> exists u, th_url th = Some u /\ truthy u = true.
Proof.
  unfold usable, opt_truthy. destruct (th_url th) as [u|]; [eauto | discriminate].
Qed.

Lemma thumb_step_skip best th : usable th = false -> thumb_step best th = best.
Proof.
  unfold usable, opt_truthy, thumb_step.
  destruct (th_url th) as [u|]; [|reflexivity]. by intros ->.
Qed.

Lemma thumb_step_usable best th u :
  th_url th = Some u -> truthy u = true ->
  thumb_step best th
  = if (snd best <? area th)%Z then (Some (norm u), area th) else best.
Proof. unfold thumb_step. by intros -> ->. Qed.

(** The loop invariant, read off at the end of the loop: either nothing
    beat the initial pair, or the pair comes from the first usable
    candidate of largest area, which beat it. *)
Lemma fold_thumb_step ths : forall best,
  let r := fold_left thumb_step ths best in
  (r = best
   /\ forall th, th ∈ ths -> usable th = true -> (area th <= snd best)%Z)
  \/ (exists e u, first_largest ths e /\ th_url e = Some u
        /\ r = (Some (norm u), area e) /\ (snd best < area e)%Z).
Proof.
  induction ths as [|th ths IH]; intros best; simpl.
  { left. split; [reflexivity|]. intros th H. by apply elem_of_nil in H. }
  destruct (usable th) eqn:Eu.
  - destruct (usable_url th Eu) as (u & Hu & Ht).
    rewrite (thumb_step_usable best th u Hu Ht).
    destruct (snd best <? area th)%Z eqn:Elt.
    + apply Z.ltb_lt in Elt.
      destruct (IH (Some (norm u), area th)) as [[Hr Hle] | (e & u' & Hf & Hu' & Hr & Hlt)].
      * right. exists th, u. repeat split; try assumption.
        exists [], ths. repeat split; try assumption.
        intros x Hx. by apply elem_of_nil in Hx.
      * right. exists e, u'. simpl in Hlt.
        repeat split; try assumption; [|lia].
        destruct Hf as (l1 & l2 & -> & Hue & Hb & Ha).
        exists (th :: l1), l2. repeat split; try assumption.
        intros x Hx Hxu. apply elem_of_cons in Hx as [-> | Hx]; [lia | auto].
    + apply Z.ltb_ge in Elt.
      destruct (IH best) as [[Hr Hle] | (e & u' & Hf & Hu' & Hr & Hlt)].
      * left. split; [exact Hr|].
        intros x Hx Hxu. apply elem_of_cons in Hx as [-> | Hx]; auto.
      * right. exists e, u'. repeat split; try assumption.
        destruct Hf as (l1 & l2 & -> & Hue & Hb & Ha).
        exists (th :: l1), l2. repeat split; try assumption.
        intros x Hx Hxu. apply elem_of_cons in Hx as [-> | Hx]; [lia | auto].
  - rewrite (thumb_step_skip best th Eu).
    destruct (IH best) as [[Hr Hle] | (e & u' & Hf & Hu' & Hr & Hlt)].
    + left. split; [exact Hr|].
      intros x Hx Hxu. apply elem_of_cons in Hx as [-> | Hx]; [congruence | auto].
    + right. exists e, u'. repeat split; try assumption.
      destruct Hf as (l1 & l2 & -> & Hue & Hb & Ha).
      exists (th :: l1), l2. repeat split; try assumption.
      intros x Hx Hxu. apply elem_of_cons in Hx as [-> | Hx]; [congruence | auto].
Qed.








(** The code on two inputs: a scheme-relative direct thumbnail comes back
    with [https:] put before it, and a candidate without a url is passed
    over whatever its area. *)
Example pick_thumbnail_normalises_and_skips :
  (pick_thumbnail scheme_relative_info
   = Some (py "https://i.ytimg.com/vi/abc/hq.jpg")
   /\ pick_thumbnail scheme_relative_info <> thumbnail scheme_relative_info)
  /\ pick_thumbnail
       (info_of_thumbs
          [{| th_url := None; th_width := Some 1920%Z;
              th_height := Some 1080%Z |};
           mk_thumb (py "http://a/small.jpg") 120 90])
     = Some (py "http://a/small.jpg").
Proof.
  split; [split|]; vm_compute; [reflexivity | discriminate | reflexivity].
Qed.



Example sample_job_audio :
  log (sample_job (const_engine good_run
                     (Returned (py "/srv/downloads/My Song-0a1b2c.webm")))
                  (py "2"))
  = [EngineCall (py "https://example.com/v") true;
     Emit (py "room1")
       (Downloading (py "50.0%") (py "1MiB/s") (py "00:01")
                    (Some 10%Z) (Some 20%Z));
     Store (py "feedfacecafebeef")
       {| path := py "/srv/downloads/My Song-0a1b2c.mp3";
          name := py "My-Song-live.mp3" |};
     Emit (py "room1")
       (Ready (py "/download/feedfacecafebeef") (py "My-Song-live.mp3"))].
Proof. vm_compute. reflexivity. Qed.

(** ** The progress hook and the engine call *)

Lemma hook_effect room d w :
  DOWNLOAD_MAP (hook room d w) = DOWNLOAD_MAP w
  /\ files (hook room d w) = files w
  /\ exists evs, log (hook room d w) = log w ++ evs
                 /\ forallb (progress_of room) evs = true.
Proof.
  unfold hook.
  destruct (hd_status d) as [st|].
  - destruct (bool_decide (st = py "downloading")).
    + repeat split. eexists [_]. split; [reflexivity|].
      simpl. by rewrite bool_decide_eq_true_2.
    + destruct (bool_decide (st = py "finished")).
      * repeat split. eexists [_]. split; [reflexivity|].
        simpl. by rewrite bool_decide_eq_true_2.
      * repeat split. exists []. by rewrite app_nil_r.
  - repeat split. exists []. by rewrite app_nil_r.
Qed.

Lemma hooks_effect room ds : forall w,
  let w' := fold_left (fun w0 d => hook room d w0) ds w in
  DOWNLOAD_MAP w' = DOWNLOAD_MAP w
  /\ files w' = files w
  /\ exists evs, log w' = log w ++ evs
                 /\ forallb (progress_of room) evs = true.
Proof.
  induction ds as [|d ds IH]; intros w; simpl.
  { repeat split. exists []. by rewrite app_nil_r. }
  destruct (IH (hook room d w)) as (Hm & Hf & evs & Hl & Hp).
  destruct (hook_effect room d w) as (Hm0 & Hf0 & evs0 & Hl0 & Hp0).
  split; [congruence|]. split; [congruence|].
  exists (evs0 ++ evs). split.
  - rewrite Hl, Hl0. by rewrite app_assoc.
  - rewrite forallb_app, Hp0, Hp. reflexivity.
Qed.

(** A call of the engine logs the call, then the progress events of the
    hook, replaces the files by those the engine leaves, and touches nothing
    else. *)
Lemma call_engine_effect eng opts url download room w :
  let run := extract_info eng opts url download (files w) in
  let w1 := fst (call_engine eng opts url download (Some room) w) in
  snd (call_engine eng opts url download (Some room) w) = outcome run
  /\ DOWNLOAD_MAP w1 = DOWNLOAD_MAP w
  /\ files w1 = files_after run
  /\ exists progress,
       log w1 = log w ++ EngineCall url download :: progress
       /\ forallb (progress_of room) progress = true.
Proof.
  unfold call_engine. simpl.
  split; [reflexivity|].
  match goal with
  | |- context [fold_left _ ?ds ?w0] =>
      destruct (hooks_effect room ds w0) as (Hm & Hf & evs & Hl & Hp)
  end.
  split; [exact Hm|]. split; [exact Hf|].
  exists evs. split; [|exact Hp].
  rewrite Hl. simpl. by rewrite <- app_assoc.
Qed.

Lemma events_since_app w w' evs :
  log w' = log w ++ evs -> events_since w w' = evs.
Proof. intros H. unfold events_since. rewrite H. apply drop_app_length. Qed.

Lemma progress_of_counts room progress :
  forallb (progress_of room) progress = true ->
  count_if is_ready progress = 0%nat
  /\ count_if is_error progress = 0%nat
  /\ count_if is_store progress = 0%nat
  /\ count_if is_engine_call progress = 0%nat.
Proof.
  unfold count_if.
  induction progress as [|ef evs IH]; simpl; [auto|].
  intros H. apply andb_true_iff in H as [Hef Hevs].
  destruct (IH Hevs) as (H1 & H2 & H3 & H4).
  destruct ef as [r [| | |]| |]; simpl in *; try discriminate; auto.
Qed.

Lemma count_if_app {A} (f : A -> bool) l1 l2 :
  count_if f (l1 ++ l2) = (count_if f l1 + count_if f l2)%nat.
Proof. unfold count_if. by rewrite List.filter_app, length_app. Qed.

Lemma count_if_cons {A} (f : A -> bool) x l :
  count_if f (x :: l) = ((if f x then 1 else 0) + count_if f l)%nat.
Proof. unfold count_if. simpl. by destruct (f x). Qed.

(** ** [run_download] *)

Lemma path_exists_Some (fs : gmap str N) p n :
  fs !! p = Some n -> path_exists fs p = true.
Proof. intros H. unfold path_exists. apply bool_decide_eq_true_2. eauto. Qed.

Lemma path_exists_None (fs : gmap str N) p :
  fs !! p = None -> path_exists fs p = false.
Proof.
  intros H. unfold path_exists. apply bool_decide_eq_false_2.
  rewrite H. by intros [x Hx].
Qed.

Lemma getsize_Some (fs : gmap str N) p n : fs !! p = Some n -> getsize fs p = n.
Proof. unfold getsize. by intros ->. Qed.

Section JobFacts.

Variable isalnum : N -> bool.
Variable eng : Engine.
Variable cwd : str.
Variables uuid_a uuid_b url fmt progress_id : str.
Variable w : World.

Let opts := job_opts cwd uuid_a fmt.
Let run := extract_info eng opts url true (files w).
Let w1 := fst (call_engine eng opts url true (Some progress_id) w).
Let final_path (p : str) : str :=
  if bool_decide (fmt = py "2") then splitext_root p ++ py ".mp3"
  else splitext_root p ++ py ".mp4".
Let ext := if bool_decide (fmt = py "1") then py "mp4" else py "mp3".

(** The job once the engine call is done. *)
Lemma run_download_after_engine :
  run_download isalnum eng cwd uuid_a uuid_b url fmt progress_id w =
  match outcome run with
  | Raised e => emit progress_id (Error e) w1
  | Returned info =>
      match prepare_filename eng opts info with
      | Raised e => emit progress_id (Error e) w1
      | Returned p =>
          if negb (path_exists (files_after run) (final_path p))
             || (getsize (files_after run) (final_path p) =? 0)
          then emit progress_id (Error (py "The downloaded file is empty")) w1
          else
            let download_name :=
              friendly_title isalnum info ++ py "." ++ ext in
            emit progress_id
              (Ready (py "/download/" ++ uuid_b) download_name)
              (store uuid_b
                 {| path := final_path p; name := download_name |} w1)
      end
  end.
Proof.
  unfold run_download, run_download_body.
  fold (job_opts cwd uuid_a fmt). fold opts.
  destruct (call_engine_effect eng opts url true progress_id w)
    as (Hr & _ & Hf & _).
  unfold w1.
  destruct (call_engine eng opts url true (Some progress_id) w) as [w1' r].
  cbn [fst snd] in *. subst r. rewrite Hf. fold run.
  destruct (outcome run) as [info|e]; [|reflexivity].
  destruct (prepare_filename eng opts info) as [p|e]; [|reflexivity].
  fold (final_path p). fold ext.
  destruct (negb _ || _); reflexivity.
Qed.

Lemma engine_part :
  DOWNLOAD_MAP w1 = DOWNLOAD_MAP w
  /\ exists progress,
       log w1 = log w ++ EngineCall url true :: progress
       /\ forallb (progress_of progress_id) progress = true.
Proof.
  destruct (call_engine_effect eng opts url true progress_id w)
    as (_ & Hm & _ & Hl).
  split; assumption.
Qed.

(** A job that ends with an error event: the shape of what it did. *)
Lemma error_run_shape msg :
  let w' := emit progress_id (Error msg) w1 in
  DOWNLOAD_MAP w' = DOWNLOAD_MAP w
  /\ (exists progress,
        log w' = log w ++ EngineCall url true :: progress
                       ++ [Emit progress_id (Error msg)]
        /\ forallb (progress_of progress_id) progress = true)
  /\ count_if is_error (events_since w w') = 1%nat
  /\ count_if is_ready (events_since w w') = 0%nat
  /\ count_if is_store (events_since w w') = 0%nat
  /\ count_if is_engine_call (events_since w w') = 1%nat.
Proof.
  intros w'.
  destruct engine_part as (Hm & progress & Hl & Hp).
  assert (E : log w' = log w ++ EngineCall url true :: progress
                             ++ [Emit progress_id (Error msg)]).
  { unfold w', emit. cbn [log]. rewrite Hl. by rewrite <- app_assoc. }
  destruct (progress_of_counts _ _ Hp) as (H1 & H2 & H3 & H4).
  split; [exact Hm|]. split; [by exists progress|].
  rewrite (events_since_app w w' _ E).
  rewrite !count_if_cons, !count_if_app, H1, H2, H3, H4.
  repeat split; reflexivity.
Qed.

(** A job that ends with a ready event: the shape of what it did. *)
Lemma ready_run_shape e rurl rname :
  let w' := emit progress_id (Ready rurl rname) (store uuid_b e w1) in
  DOWNLOAD_MAP w' = <[uuid_b := e]> (DOWNLOAD_MAP w)
  /\ (exists progress,
        log w' = log w ++ EngineCall url true :: progress
                       ++ [Store uuid_b e; Emit progress_id (Ready rurl rname)]
        /\ forallb (progress_of progress_id) progress = true)
  /\ count_if is_ready (events_since w w') = 1%nat
  /\ count_if is_error (events_since w w') = 0%nat
  /\ count_if is_store (events_since w w') = 1%nat
  /\ count_if is_engine_call (events_since w w') = 1%nat.
Proof.
  intros w'.
  destruct engine_part as (Hm & progress & Hl & Hp).
  assert (E : log w' = log w ++ EngineCall url true :: progress
                ++ [Store uuid_b e; Emit progress_id (Ready rurl rname)]).
  { unfold w', emit, store. cbn [log]. rewrite Hl.
    rewrite <- !app_assoc. reflexivity. }
  destruct (progress_of_counts _ _ Hp) as (H1 & H2 & H3 & H4).
  split; [unfold w', emit, store; cbn [DOWNLOAD_MAP]; by rewrite Hm|].
  split; [by exists progress|].
  rewrite (events_since_app w w' _ E).
  rewrite !count_if_cons, !count_if_app, !count_if_cons, H1, H2, H3, H4.
  repeat split; reflexivity.
Qed.

End JobFacts.

(** C2: a job with the Audio option ("2") whose engine calls return and
    whose final file exists with a size that is not zero does the
    following, and nothing else, after the engine call and its progress
    events: it registers the token in [DOWNLOAD_MAP], mapped to the final
    path and the download name, and then publishes one Ready event to its
    room, carrying the URL of that token and the download name, which ends
    in [.mp3].  It publishes exactly one Ready event. *)
Theorem run_download_audio_ready isalnum eng cwd uuid_a uuid_b url progress_id
    w info p size :
  let opts := job_opts cwd uuid_a (py "2") in
  let run := extract_info eng opts url true (files w) in
  let final_path := splitext_root p ++ py ".mp3" in
  let download_name := friendly_title isalnum info ++ py ".mp3" in
  let e := {| path := final_path; name := download_name |} in
  let w' :=
    run_download isalnum eng cwd uuid_a uuid_b url (py "2") progress_id w in
  outcome run = Returned info ->
  prepare_filename eng opts info = Returned p ->
  files_after run !! final_path = Some size ->
  size <> 0 ->
  count_if is_ready (events_since w w') = 1%nat
  /\ (exists progress,
        log w' = log w ++ EngineCall url true :: progress
                 ++ [Store uuid_b e;
                     Emit progress_id
                       (Ready (py "/download/" ++ uuid_b) download_name)]
        /\ forallb (progress_of progress_id) progress = true)
  /\ DOWNLOAD_MAP w' !! uuid_b = Some e.
Proof.
  intros opts run final_path download_name e w' Hout Hprep Hfile Hsize.
  assert (E : w' = emit progress_id
                     (Ready (py "/download/" ++ uuid_b) download_name)
                     (store uuid_b e
                        (fst (call_engine eng opts url true
                                (Some progress_id) w)))).
  { unfold w'. rewrite run_download_after_engine.
    fold opts. fold run. rewrite Hout, Hprep.
    change (if bool_decide (py "2" = py "2") then splitext_root p ++ py ".mp3"
            else splitext_root p ++ py ".mp4") with final_path.
    rewrite (path_exists_Some _ _ _ Hfile), (getsize_Some _ _ _ Hfile).
    apply N.eqb_neq in Hsize. rewrite Hsize. reflexivity. }
  destruct (ready_run_shape eng cwd uuid_a uuid_b url (py "2") progress_id w e
              (py "/download/" ++ uuid_b) download_name)
    as (Hm & Hl & Hr & _).
  fold opts in Hm, Hl, Hr. rewrite <- E in Hm, Hl, Hr.
  split; [exact Hr|]. split; [exact Hl|].
  rewrite Hm. apply lookup_insert_eq.
Qed.

Lemma run_download_audio_ready_witness :
  count_if is_ready
    (events_since empty_world
       (sample_job
          (const_engine good_run
             (Returned (py "/srv/downloads/My Song-0a1b2c.webm")))
          (py "2"))) = 1%nat.
Proof.
  refine (proj1 (run_download_audio_ready isalnum_ascii
            (const_engine good_run
               (Returned (py "/srv/downloads/My Song-0a1b2c.webm")))
            (py "/srv") (py "0a1b2c3d4e5f") (py "feedfacecafebeef")
            (py "https://example.com/v") (py "room1") empty_world
            sample_info (py "/srv/downloads/My Song-0a1b2c.webm") 7
            _ _ _ _)).
  - reflexivity.
  - reflexivity.
  - vm_compute. reflexivity.
  - discriminate.
Defined.

(** C3: a job whose engine call raises (the extraction itself, or the
    engine's file name computation after it) publishes exactly one Error
    event, to its own room and carrying the text of the exception, as the
    last thing it does; it registers no token, leaves [DOWNLOAD_MAP] as it
    was, publishes no Ready event, and has called the engine once. *)
Theorem run_download_engine_raises isalnum eng cwd uuid_a uuid_b url fmt
    progress_id w e :
  let opts := job_opts cwd uuid_a fmt in
  let run := extract_info eng opts url true (files w) in
  let w' :=
    run_download isalnum eng cwd uuid_a uuid_b url fmt progress_id w in
  (outcome run = Raised e
   \/ exists info, outcome run = Returned info
                   /\ prepare_filename eng opts info = Raised e) ->
  count_if is_error (events_since w w') = 1%nat
  /\ (exists progress,
        log w' = log w ++ EngineCall url true :: progress
                 ++ [Emit progress_id (Error e)]
        /\ forallb (progress_of progress_id) progress = true)
  /\ DOWNLOAD_MAP w' = DOWNLOAD_MAP w
  /\ count_if is_store (events_since w w') = 0%nat
  /\ count_if is_ready (events_since w w') = 0%nat
  /\ count_if is_engine_call (events_since w w') = 1%nat.
Proof.
  intros opts run w' Hraise.
  assert (E : w' = emit progress_id (Error e)
                     (fst (call_engine eng opts url true
                             (Some progress_id) w))).
  { unfold w'. rewrite run_download_after_engine. fold opts. fold run.
    destruct Hraise as [-> | (info & -> & ->)]; reflexivity. }
  destruct (error_run_shape eng cwd uuid_a url fmt progress_id w e)
    as (Hm & Hl & He & Hr & Hs & Hc).
  fold opts in Hm, Hl, He, Hr, Hs, Hc.
  rewrite <- E in Hm, Hl, He, Hr, Hs, Hc.
  repeat split; assumption.
Qed.

Lemma run_download_engine_raises_witness :
  log (sample_job (const_engine failing_run (Raised (py "unused"))) (py "1"))
  = [EngineCall (py "https://example.com/v") true;
     Emit (py "room1")
       (Downloading (py "50.0%") (py "1MiB/s") (py "00:01")
                    (Some 10%Z) (Some 20%Z));
     Emit (py "room1") (Error (py "ERROR: Unsupported URL"))]
  /\ count_if is_error
       (events_since empty_world
          (sample_job (const_engine failing_run (Raised (py "unused")))
                      (py "1"))) = 1%nat.
Proof.
  split; [vm_compute; reflexivity|].
  refine (proj1 (run_download_engine_raises isalnum_ascii
            (const_engine failing_run (Raised (py "unused")))
            (py "/srv") (py "0a1b2c3d4e5f") (py "feedfacecafebeef")
            (py "https://example.com/v") (py "1") (py "room1") empty_world
            (py "ERROR: Unsupported URL") _)).
  left. reflexivity.
Defined.

(** C4 (as stated): the message of the Error event for a missing or empty
    file is not ["empty file"]; the job whose engine left no file publishes
    the message ["The downloaded file is empty"]. *)
Lemma run_download_empty_file_message :
  log (sample_job
         (const_engine no_file_run
            (Returned (py "/srv/downloads/My Song-0a1b2c.webm")))
         (py "2"))
  = [EngineCall (py "https://example.com/v") true;
     Emit (py "room1")
       (Downloading (py "50.0%") (py "1MiB/s") (py "00:01")
                    (Some 10%Z) (Some 20%Z));
     Emit (py "room1") (Error (py "The downloaded file is empty"))]
  /\ ~ In (Emit (py "room1") (Error (py "empty file")))
          (log (sample_job
                  (const_engine no_file_run
                     (Returned (py "/srv/downloads/My Song-0a1b2c.webm")))
                  (py "2"))).
Proof.
  split; [vm_compute; reflexivity|].
  vm_compute. intros [H | [H | [H | []]]]; discriminate.
Qed.

(** C4 (amended): a job whose engine calls return but whose final file (the
    engine's file name with the extension forced to that of the format)
    does not exist or has size zero publishes an Error event with the
    message ["The downloaded file is empty"] to its room and stops: that
    event is its only Error event and the last thing it does, no token is
    registered and no Ready event is published. *)
Theorem run_download_empty_file isalnum eng cwd uuid_a uuid_b url fmt
    progress_id w info p :
  let opts := job_opts cwd uuid_a fmt in
  let run := extract_info eng opts url true (files w) in
  let final_path :=
    if bool_decide (fmt = py "2") then splitext_root p ++ py ".mp3"
    else splitext_root p ++ py ".mp4" in
  let w' :=
    run_download isalnum eng cwd uuid_a uuid_b url fmt progress_id w in
  outcome run = Returned info ->
  prepare_filename eng opts info = Returned p ->
  (files_after run !! final_path = None
   \/ files_after run !! final_path = Some 0) ->
  (exists progress,
     log w' = log w ++ EngineCall url true :: progress
              ++ [Emit progress_id (Error (py "The downloaded file is empty"))]
     /\ forallb (progress_of progress_id) progress = true)
  /\ count_if is_error (events_since w w') = 1%nat
  /\ DOWNLOAD_MAP w' = DOWNLOAD_MAP w
  /\ count_if is_store (events_since w w') = 0%nat
  /\ count_if is_ready (events_since w w') = 0%nat.
Proof.
  intros opts run final_path w' Hout Hprep Hfile.
  assert (E : w' = emit progress_id (Error (py "The downloaded file is empty"))
                     (fst (call_engine eng opts url true
                             (Some progress_id) w))).
  { unfold w'. rewrite run_download_after_engine. fold opts. fold run.
    rewrite Hout, Hprep. fold final_path.
    destruct Hfile as [Hfile | Hfile].
    - by rewrite (path_exists_None _ _ Hfile).
    - by rewrite (path_exists_Some _ _ _ Hfile), (getsize_Some _ _ _ Hfile). }
  destruct (error_run_shape eng cwd uuid_a url fmt progress_id w
              (py "The downloaded file is empty"))
    as (Hm & Hl & He & Hr & Hs & Hc).
  fold opts in Hm, Hl, He, Hr, Hs, Hc.
  rewrite <- E in Hm, Hl, He, Hr, Hs, Hc.
  repeat split; assumption.
Qed.

Lemma run_download_empty_file_witness :
  count_if is_store
    (events_since empty_world
       (sample_job
          (const_engine no_file_run
             (Returned (py "/srv/downloads/My Song-0a1b2c.webm")))
          (py "2"))) = 0%nat.
Proof.
  refine (proj1 (proj2 (proj2 (proj2 (run_download_empty_file isalnum_ascii
            (const_engine no_file_run
               (Returned (py "/srv/downloads/My Song-0a1b2c.webm")))
            (py "/srv") (py "0a1b2c3d4e5f") (py "feedfacecafebeef")
            (py "https://example.com/v") (py "2") (py "room1") empty_world
            sample_info (py "/srv/downloads/My Song-0a1b2c.webm")
            _ _ _))))).
  - reflexivity.
  - reflexivity.
  - left. vm_compute. reflexivity.
Defined.

(** ** [get_info] *)

(** C8: a metadata request whose URL is missing, empty or made of
    whitespace only (empty after trimming) is answered with the client
    error 400, and the engine is never invoked: the world, whose log records
    every engine call, is returned as it was. *)
Theorem get_info_empty_url (eng : Engine) (data_url : option str) (w : World) :
  strip (default [] data_url) = [] ->
  get_info eng data_url w
  = ({| content := JsonError (py "No URL provided"); status := 400 |}, w)
  /\ count_if is_engine_call (events_since w (snd (get_info eng data_url w)))
     = 0%nat.
Proof.
  intros H.
  assert (E : get_info eng data_url w
              = (respond (JsonError (py "No URL provided")) 400, w)).
  { unfold get_info. rewrite H. reflexivity. }
  split; [exact E|].
  rewrite E. unfold events_since. cbn [snd]. by rewrite drop_all.
Qed.

Lemma get_info_empty_url_witness :
  strip (default [] (Some (py "   "))) = []
  /\ get_info (const_engine good_run (Raised [])) (Some (py "   ")) empty_world
     = ({| content := JsonError (py "No URL provided"); status := 400 |},
        empty_world).
Proof.
  split; [reflexivity|].
  apply (get_info_empty_url (const_engine good_run (Raised []))
           (Some (py "   ")) empty_world).
  vm_compute. reflexivity.
Defined.

(** C9: whatever exception the engine raises during a metadata lookup, the
    answer is the server error 500 with the fixed message
    ["Could not fetch video info"]; the text of the exception is in no part
    of the response. *)
Theorem get_info_engine_failure (eng : Engine) (data_url : option str)
    (w : World) (e : str) :
  let url := strip (default [] data_url) in
  url <> [] ->
  outcome (extract_info eng base_opts url false (files w)) = Raised e ->
  fst (get_info eng data_url w)
  = {| content := JsonError (py "Could not fetch video info"); status := 500 |}.
Proof.
  intros url Hurl Hraise. unfold get_info. fold url.
  destruct url as [|c u] eqn:Eu; [congruence|].
  cbn [truthy negb]. unfold call_engine. rewrite Hraise. reflexivity.
Qed.

Lemma get_info_engine_failure_witness :
  fst (get_info (const_engine failing_run (Raised []))
         (Some (py " https://example.com/v ")) empty_world)
  = {| content := JsonError (py "Could not fetch video info"); status := 500 |}.
Proof.
  apply (get_info_engine_failure (const_engine failing_run (Raised []))
           (Some (py " https://example.com/v ")) empty_world
           (py "ERROR: Unsupported URL")).
  - vm_compute. discriminate.
  - reflexivity.
Defined.

(** ** [start_download] *)

(** C7: [start_download] trims the three form fields and checks them before
    anything else.  If the URL is empty, or the format option is neither
    ["1"] nor ["2"], or the channel id is empty, the answer is the client
    error 400 and no thread is started.  Otherwise exactly one thread is
    started, for the trimmed values, the acknowledgment [{"started": true}]
    is returned, and the world is as it was: the handler does not run the
    job. *)
Theorem start_download_validation (f : form) (s : Server) :
  let url := strip (default [] (form_url f)) in
  let fmt := strip (default [] (form_option f)) in
  let progress_id := strip (default [] (form_progress_id f)) in
  (url = [] \/ (fmt <> py "1" /\ fmt <> py "2") \/ progress_id = [] ->
   start_download f s
   = ({| content := Text (py "Missing or invalid parameters");
         status := 400 |}, s))
  /\ (url <> [] -> fmt = py "1" \/ fmt = py "2" -> progress_id <> [] ->
      start_download f s
      = ({| content := JsonStarted; status := 200 |},
         {| world := world s;
            started := started s ++
              [{| job_url := url; job_option := fmt;
                  job_progress_id := progress_id |}] |})).
Proof.
  intros url fmt progress_id. unfold start_download.
  fold url. fold fmt. fold progress_id.
  split.
  - intros [-> | [[H1 H2] | ->]].
    + reflexivity.
    + rewrite (bool_decide_eq_false_2 _ H1), (bool_decide_eq_false_2 _ H2).
      cbn [orb negb]. by rewrite orb_true_r.
    + by rewrite orb_true_r.
  - intros Hu Hf Hp.
    assert (Ef : bool_decide (fmt = py "1") || bool_decide (fmt = py "2") = true).
    { destruct Hf as [Hf | Hf]; rewrite (bool_decide_eq_true_2 _ Hf);
        [reflexivity | apply orb_true_r]. }
    rewrite Ef.
    destruct url; [congruence|]. destruct progress_id; [congruence|].
    reflexivity.
Qed.

Lemma start_download_validation_witness :
  start_download
    {| form_url := Some (py "https://example.com/v ");
       form_option := Some (py "2"); form_progress_id := Some (py "room1") |}
    {| world := empty_world; started := [] |}
  = ({| content := JsonStarted; status := 200 |},
     {| world := empty_world;
        started := [{| job_url := py "https://example.com/v";
                       job_option := py "2";
                       job_progress_id := py "room1" |}] |})
  /\ start_download
       {| form_url := Some (py "https://example.com/v");
          form_option := Some (py "3"); form_progress_id := Some (py "room1") |}
       {| world := empty_world; started := [] |}
     = ({| content := Text (py "Missing or invalid parameters");
           status := 400 |},
        {| world := empty_world; started := [] |}).
Proof.
  split.
  - apply (proj2 (start_download_validation
             {| form_url := Some (py "https://example.com/v ");
                form_option := Some (py "2");
                form_progress_id := Some (py "room1") |}
             {| world := empty_world; started := [] |})).
    + vm_compute. discriminate.
    + right. reflexivity.
    + vm_compute. discriminate.
  - apply (proj1 (start_download_validation
             {| form_url := Some (py "https://example.com/v");
                form_option := Some (py "3");
                form_progress_id := Some (py "room1") |}
             {| world := empty_world; started := [] |})).
    right. left. split; vm_compute; discriminate.
Defined.

(** ** [download_file] *)

Example race_outcome :
  pool (run_schedule race sample_server)
  = [DlDone (py "feedfacecafebeef") (not_found "Link expired or invalid");
     DlDone (py "feedfacecafebeef")
       (respond (Attachment (py "/srv/downloads/My Song-0a1b2c.mp3")
                            (py "My-Song-live.mp3")) 200)].
Proof. vm_compute. reflexivity. Qed.

(** The handler is the three thread operations run without interruption. *)
Lemma download_file_steps token w :
  let '(th1, w1) := dl_step (DlStart token) w in
  let '(th2, w2) := dl_step th1 w1 in
  let '(th3, w3) := dl_step th2 w2 in
  (th3, w3) = (DlDone token (fst (download_file token w)),
               snd (download_file token w)).
Proof.
  unfold download_file, dl_step, pop.
  destruct (DOWNLOAD_MAP w !! token) as [e|]; [|reflexivity].
  cbn [files]. destruct (path_exists (files w) (path e)); reflexivity.
Qed.

Lemma download_file_removes token w :
  DOWNLOAD_MAP (snd (download_file token w)) = delete token (DOWNLOAD_MAP w).
Proof.
  unfold download_file, pop.
  destruct (DOWNLOAD_MAP w !! token) as [e|]; [|reflexivity].
  cbn [files]. destruct (path_exists (files w) (path e)); reflexivity.
Qed.

Lemma download_file_unregistered token w :
  DOWNLOAD_MAP w !! token = None ->
  fst (download_file token w) = not_found "Link expired or invalid".
Proof. intros H. unfold download_file, pop. by rewrite H. Qed.

Lemma count_if_middle {A} (f : A -> bool) pre x post :
  count_if f (pre ++ x :: post)
  = (count_if f pre + ((if f x then 1 else 0) + count_if f post))%nat.
Proof. by rewrite count_if_app, count_if_cons. Qed.

Lemma registered_le w token : (registered w token <= 1)%nat.
Proof. unfold registered. destruct (_ !! _); lia. Qed.

(** What one thread operation does to the owners of [token]. *)
Lemma dl_step_owner th w token :
  let th' := fst (dl_step th w) in
  let w' := snd (dl_step th w) in
  ((if holds_entry token th' then 1 else 0) + registered w' token
   <= (if holds_entry token th then 1 else 0) + registered w token)%nat.
Proof.
  destruct th as [t | t e | t e | t r]; cbn [dl_step].
  - unfold pop, registered.
    destruct (DOWNLOAD_MAP w !! t) as [e|] eqn:E; cbn [fst snd DOWNLOAD_MAP holds_entry].
    + destruct (decide (t = token)) as [-> | Hne].
      * rewrite lookup_delete_eq, E, bool_decide_eq_true_2 by done. lia.
      * rewrite lookup_delete_ne, bool_decide_eq_false_2 by done. lia.
    + destruct (decide (t = token)) as [-> | Hne].
      * rewrite lookup_delete_eq, E. cbn. rewrite andb_false_r. lia.
      * rewrite lookup_delete_ne by done. cbn. rewrite andb_false_r. lia.
  - destruct (negb (path_exists (files w) (path e)));
      cbn [fst snd holds_entry].
    + cbn. rewrite andb_false_r. lia.
    + lia.
  - cbn [fst snd holds_entry]. unfold registered, cleanup. cbn [DOWNLOAD_MAP].
    cbn. rewrite andb_true_r. lia.
  - cbn [fst snd]. lia.
Qed.

Lemma dl_step_answer th w : answer_ok th -> answer_ok (fst (dl_step th w)).
Proof.
  destruct th as [t | t e | t e | t r]; cbn [dl_step]; intros H.
  - unfold pop. destruct (DOWNLOAD_MAP w !! t); cbn; auto.
  - destruct (negb _); cbn; auto.
  - cbn. left. eauto.
  - exact H.
Qed.

Lemma initial_one_owner s : initial s -> one_owner s.
Proof.
  intros [Hp Hi] token. rewrite Hp. unfold count_if. cbn.
  split; [apply registered_le|].
  intros Hni. split; [|reflexivity].
  rewrite Hi in Hni. apply not_elem_of_dom in Hni.
  unfold registered. by rewrite Hni.
Qed.

Lemma sys_step_one_owner s s' : sys_step s s' -> one_owner s -> one_owner s'.
Proof.
  intros Hstep Hinv token. specialize (Hinv token).
  destruct Hstep as [w p iss t | w pre th post iss | w p iss t e Hfresh
                    | w p iss fs];
    cbn [sys_world pool issued] in *.
  - rewrite count_if_app, count_if_cons. cbn.
    rewrite !Nat.add_0_r. exact Hinv.
  - pose proof (dl_step_owner th w token) as Hs. cbn zeta in Hs.
    rewrite count_if_middle in *.
    destruct Hinv as [Hle Hni]. split; [lia|].
    intros Hn. destruct (Hni Hn) as [H1 H2]. lia.
  - destruct Hinv as [Hle Hni].
    unfold registered, store in *. cbn [DOWNLOAD_MAP] in *.
    destruct (decide (t = token)) as [-> | Hne].
    + destruct (Hni Hfresh) as [H1 H2].
      rewrite lookup_insert_eq. split; [lia|].
      intros Hn. exfalso. apply Hn, elem_of_union. left.
      by apply elem_of_singleton.
    + rewrite lookup_insert_ne by done. split; [exact Hle|].
      intros Hn. apply Hni. intros Hin. apply Hn, elem_of_union. by right.
  - exact Hinv.
Qed.

Lemma sys_step_answers s s' :
  sys_step s s' -> Forall answer_ok (pool s) -> Forall answer_ok (pool s').
Proof.
  intros Hstep Hall.
  destruct Hstep as [w p iss t | w pre th post iss | w p iss t e Hfresh
                    | w p iss fs];
    cbn [pool] in *; try exact Hall.
  - apply Forall_app; split; [exact Hall|]. by repeat constructor.
  - apply Forall_app in Hall as [Hpre Hpost].
    apply Forall_cons in Hpost as [Hth Hpost].
    apply Forall_app; split; [exact Hpre|].
    apply Forall_cons; split; [|exact Hpost]. by apply dl_step_answer.
Qed.

Lemma reachable_invariants s0 s :
  initial s0 -> reachable s0 s ->
  one_owner s /\ Forall answer_ok (pool s).
Proof.
  intros Hinit. induction 1 as [|s s' Hr IH Hstep].
  - split; [by apply initial_one_owner|].
    destruct Hinit as [-> _]. constructor.
  - destruct IH as [H1 H2]. split.
    + by apply (sys_step_one_owner s s').
    + by apply (sys_step_answers s s').
Qed.

Lemma succeeded_holds token th :
  succeeded token th = true -> holds_entry token th = true.
Proof. by destruct th. Qed.

Lemma count_if_le {A} (f g : A -> bool) l :
  (forall x, f x = true -> g x = true) ->
  (count_if f l <= count_if g l)%nat.
Proof.
  intros Hfg. induction l as [|x l IH]; [reflexivity|].
  rewrite !count_if_cons. specialize (Hfg x).
  destruct (f x), (g x); try lia.
Qed.

(** The scheduler only takes steps of the server. *)
Lemma do_action_reachable s0 s a :
  reachable s0 s -> reachable s0 (do_action a s).
Proof.
  intros Hr. destruct s as [w p iss].
  destruct a as [t | i | t e | fs]; cbn [do_action sys_world pool issued].
  - eapply reach_step; [exact Hr | constructor].
  - destruct (p !! i) as [th|] eqn:E; [|exact Hr].
    eapply reach_step; [exact Hr|].
    rewrite insert_take_drop by (by eapply lookup_lt_Some).
    rewrite <- (take_drop_middle p i th E) at 1.
    apply step_thread.
  - destruct (decide (t ∈ iss)); [exact Hr|].
    eapply reach_step; [exact Hr | by constructor].
  - eapply reach_step; [exact Hr | constructor].
Qed.

Lemma run_schedule_reachable acts : forall s0 s,
  reachable s0 s -> reachable s0 (run_schedule acts s).
Proof.
  induction acts as [|a acts IH]; intros s0 s Hr; [exact Hr|].
  apply IH. by apply do_action_reachable.
Qed.

(** C1: at most one retrieval of a token returns the file.  On a server
    that starts with no retrieval answered and runs any interleaving of
    request threads, token registrations (each with a token not used
    before) and file changes, at most one request for [token] has
    succeeded; more precisely the map entry of [token] and the requests
    that obtained it (and have not answered 404 for a missing file) are at
    most one in all; and every finished request was answered with the file
    or with one of the two 404 answers.  The handler removes the entry with
    the [pop] that reads it, its first operation, so the entry is gone
    after any call, whether or not the file exists; a token that is not
    registered gets 404, and so does a second retrieval. *)
Theorem download_file_single_use (s0 s : system) (token : str) (w : World) :
  initial s0 ->
  reachable s0 s ->
  (count_if (succeeded token) (pool s) <= 1)%nat
  /\ (count_if (holds_entry token) (pool s)
      + registered (sys_world s) token <= 1)%nat
  /\ Forall answer_ok (pool s)
  /\ fst (dl_step (DlStart token) w)
     = match DOWNLOAD_MAP w !! token with
       | Some e => DlPopped token e
       | None => DlDone token (not_found "Link expired or invalid")
       end
  /\ DOWNLOAD_MAP (snd (dl_step (DlStart token) w)) !! token = None
  /\ DOWNLOAD_MAP (snd (download_file token w)) !! token = None
  /\ (DOWNLOAD_MAP w !! token = None ->
      fst (download_file token w) = not_found "Link expired or invalid")
  /\ fst (download_file token (snd (download_file token w)))
     = not_found "Link expired or invalid".
Proof.
  intros Hinit Hreach.
  destruct (reachable_invariants s0 s Hinit Hreach) as [Hown Hans].
  split.
  { destruct (Hown token) as [Hle _].
    pose proof (count_if_le (succeeded token) (holds_entry token) (pool s)
                  (succeeded_holds token)).
    lia. }
  split; [exact (proj1 (Hown token))|].
  split; [exact Hans|].
  split.
  { unfold dl_step, pop. by destruct (DOWNLOAD_MAP w !! token). }
  split.
  { unfold dl_step, pop.
    destruct (DOWNLOAD_MAP w !! token); cbn; apply lookup_delete_eq. }
  split; [rewrite download_file_removes; apply lookup_delete_eq|].
  split; [apply download_file_unregistered|].
  apply download_file_unregistered.
  rewrite download_file_removes. apply lookup_delete_eq.
Qed.

Lemma download_file_single_use_witness :
  (count_if (succeeded (py "feedfacecafebeef"))
     (pool (run_schedule race sample_server)) <= 1)%nat
  /\ fst (download_file (py "feedfacecafebeef")
            (snd (download_file (py "feedfacecafebeef")
                    (sys_world sample_server))))
     = not_found "Link expired or invalid".
Proof.
  assert (Hinit : initial sample_server).
  { split; [reflexivity|]. unfold sample_server. cbn [issued sys_world DOWNLOAD_MAP].
    by rewrite dom_singleton_L. }
  pose proof (download_file_single_use sample_server
                (run_schedule race sample_server) (py "feedfacecafebeef")
                (sys_world sample_server) Hinit
                (run_schedule_reachable race _ _ (reach_refl _))) as H.
  split; [exact (proj1 H)|].
  exact (proj2 (proj2 (proj2 (proj2 (proj2 (proj2 (proj2 H))))))).
Defined.

(** * Further properties of the code *)

(** ** [strip_ansi] *)

Lemma sgr_tail_len_params params rest :
  forallb is_sgr_param params = true ->
  sgr_tail_len (params ++ 109 :: rest) = Some (S (length params)).
Proof.
  induction params as [|c params IH]; simpl; [reflexivity|].
  intros H. apply andb_true_iff in H as [Hc Hp].
  rewrite Hc, (IH Hp). reflexivity.
Qed.

Lemma sgr_tail_len_bound s n : sgr_tail_len s = Some n -> (n <= length s)%nat.
Proof.
  revert n. induction s as [|c s IH]; simpl; intros n; [discriminate|].
  destruct (is_sgr_param c).
  - destruct (sgr_tail_len s) as [k|]; [|discriminate].
    intros [= <-]. specialize (IH k eq_refl). lia.
  - destruct (c =? 109); [|discriminate]. intros [= <-]. lia.
Qed.

Lemma ansi_match_len_bound s n :
  ansi_match_len s = Some n -> (n <= length s)%nat.
Proof.
  unfold ansi_match_len. destruct s as [|c1 [|c2 s]]; try discriminate.
  destruct ((c1 =? ESC) && (c2 =? 91)); [|discriminate].
  destruct (sgr_tail_len s) as [k|] eqn:E; [|discriminate].
  intros [= <-]. apply sgr_tail_len_bound in E. simpl. lia.
Qed.

(** An attempt to match that runs into an ESC fails, as it does at the end
    of the string. *)
Lemma sgr_tail_len_before_esc y r :
  sgr_tail_len (y ++ ESC :: r) = sgr_tail_len y.
Proof.
  induction y as [|c y IH]; [reflexivity|].
  simpl. rewrite IH. reflexivity.
Qed.

Lemma ansi_match_len_before_esc x r :
  x <> [] -> ansi_match_len (x ++ ESC :: r) = ansi_match_len x.
Proof.
  intros Hx. destruct x as [|c1 [|c2 x]]; [congruence | |].
  - unfold ansi_match_len. simpl. by rewrite andb_false_r.
  - unfold ansi_match_len. simpl.
    by rewrite sgr_tail_len_before_esc.
Qed.

Lemma sub_ansi_skip_all l : forall rest,
  sub_ansi (length l) (l ++ rest) = sub_ansi 0 rest.
Proof. induction l as [|c l IH]; intros rest; [reflexivity | apply IH]. Qed.

Lemma sub_ansi_app_esc a : forall skip r,
  (skip <= length a)%nat ->
  sub_ansi skip (a ++ ESC :: r) = sub_ansi skip a ++ sub_ansi 0 (ESC :: r).
Proof.
  induction a as [|c a IH]; intros skip r Hs.
  { replace skip with 0%nat by (simpl in Hs; lia). reflexivity. }
  destruct skip as [|k].
  - change ((c :: a) ++ ESC :: r) with (c :: (a ++ ESC :: r)).
    cbn [sub_ansi].
    change (c :: (a ++ ESC :: r)) with ((c :: a) ++ ESC :: r).
    rewrite ansi_match_len_before_esc by discriminate.
    destruct (ansi_match_len (c :: a)) as [[|k]|] eqn:E.
    + rewrite IH by lia. reflexivity.
    + apply ansi_match_len_bound in E. simpl in E. apply IH. lia.
    + rewrite IH by lia. reflexivity.
  - simpl in Hs. apply IH. lia.
Qed.

Lemma ansi_match_len_sgr params rest :
  forallb is_sgr_param params = true ->
  ansi_match_len (sgr params ++ rest) = Some (length (sgr params)).
Proof.
  intros Hp. unfold sgr.
  replace (([ESC; 91] ++ params ++ [109]) ++ rest)
    with (ESC :: 91 :: (params ++ 109 :: rest))
    by (simpl; by rewrite <- app_assoc).
  unfold ansi_match_len.
  change ((ESC =? ESC) && (91 =? 91)) with true. cbv iota.
  rewrite (sgr_tail_len_params params rest Hp).
  simpl. rewrite length_app. simpl. do 3 f_equal. lia.
Qed.

Lemma sub_ansi_sgr params rest :
  forallb is_sgr_param params = true ->
  sub_ansi 0 (sgr params ++ rest) = sub_ansi 0 rest.
Proof.
  intros Hp.
  pose proof (ansi_match_len_sgr params rest Hp) as Hm.
  assert (E : sgr params = ESC :: (91 :: params ++ [109])) by reflexivity.
  rewrite E in *.
  change ((ESC :: 91 :: params ++ [109]) ++ rest)
    with (ESC :: ((91 :: params ++ [109]) ++ rest)) in *.
  cbn [sub_ansi]. rewrite Hm. cbn [length].
  apply sub_ansi_skip_all.
Qed.

Lemma sub_ansi_no_esc s :
  Forall (fun c => c <> ESC) s -> sub_ansi 0 s = s.
Proof.
  induction 1 as [|c s Hc Hs IH]; [reflexivity|].
  cbn [sub_ansi]. unfold ansi_match_len.
  apply N.eqb_neq in Hc.
  destruct s as [|c2 s']; [reflexivity|].
  rewrite Hc. cbn [andb]. by rewrite IH.
Qed.

Lemma sub_ansi_sublist s : forall skip, sublist (sub_ansi skip s) s.
Proof.
  induction s as [|c s IH]; intros skip; [constructor|].
  cbn [sub_ansi]. destruct skip as [|k].
  - destruct (ansi_match_len (c :: s)) as [[|k]|].
    + by apply sublist_skip.
    + by apply sublist_cons.
    + by apply sublist_skip.
  - by apply sublist_cons.
Qed.

(** X1: a colour sequence (ESC, bracket, digits and semicolons, [m]) is
    removed wherever it stands: the text around it is cleaned as if the
    sequence were not there. *)
Theorem strip_ansi_removes_sgr (a params b : str) :
  forallb is_sgr_param params = true ->
  strip_ansi (Some (a ++ sgr params ++ b))
  = strip_ansi (Some a) ++ strip_ansi (Some b).
Proof.
  intros Hp. unfold strip_ansi. cbn [default from_option id].
  change (sgr params ++ b) with (ESC :: ((91 :: params ++ [109]) ++ b)).
  rewrite sub_ansi_app_esc by lia. f_equal.
  change (ESC :: ((91 :: params ++ [109]) ++ b)) with (sgr params ++ b).
  by apply sub_ansi_sgr.
Qed.

Lemma strip_ansi_removes_sgr_witness :
  strip_ansi (Some (py " 50.0%" ++ sgr (py "0;32") ++ py " of 3MiB"))
  = py " 50.0% of 3MiB".
Proof.
  change (py " 50.0% of 3MiB")
    with (strip_ansi (Some (py " 50.0%")) ++ strip_ansi (Some (py " of 3MiB"))).
  apply strip_ansi_removes_sgr. reflexivity.
Defined.

(** X2: a string without an ESC character is returned as it is. *)
Theorem strip_ansi_plain (s : str) :
  Forall (fun c => c <> ESC) s -> strip_ansi (Some s) = s.
Proof. intros H. unfold strip_ansi. by apply sub_ansi_no_esc. Qed.

Lemma strip_ansi_plain_witness : strip_ansi (Some (py "1.2MiB/s")) = py "1.2MiB/s".
Proof.
  apply strip_ansi_plain. repeat (constructor; [discriminate|]). constructor.
Defined.

(** X3: [strip_ansi] only deletes: its result is the input with some
    characters left out, in the same order, so it is never longer; a
    missing string ([None]) gives the empty string. *)
Theorem strip_ansi_only_deletes (s : option str) :
  sublist (strip_ansi s) (default [] s)
  /\ (length (strip_ansi s) <= length (default [] s))%nat
  /\ strip_ansi None = [].
Proof.
  assert (H : sublist (strip_ansi s) (default [] s))
    by (unfold strip_ansi; apply sub_ansi_sublist).
  split; [exact H|]. split; [by apply sublist_length | reflexivity].
Qed.

(** ** More on [sanitize_filename] *)

Lemma split_from_no_space s : forall cur,
  Forall (fun c => isspace c = false) s ->
  split_from cur s = flush (rev s ++ cur) [].
Proof.
  induction s as [|c s IH]; intros cur Hs; [reflexivity|].
  inversion Hs as [|? ? Hc Hs']; subst.
  cbn [split_from]. rewrite Hc, (IH _ Hs').
  change (rev (c :: s)) with (rev s ++ [c]). by rewrite <- app_assoc.
Qed.

Lemma split_one_word s :
  s <> [] -> Forall (fun c => isspace c = false) s -> split s = [s].
Proof.
  intros Hne Hs. unfold split. rewrite (split_from_no_space s [] Hs).
  rewrite app_nil_r. unfold flush.
  destruct (rev s) as [|x r] eqn:E.
  - apply (f_equal (@rev N)) in E. rewrite rev_involutive in E. by subst.
  - by rewrite <- E, rev_involutive.
Qed.

Lemma length_lstrip_by p s : (length (lstrip_by p s) <= length s)%nat.
Proof.
  induction s as [|c s IH]; simpl; [lia|]. destruct (p c); simpl; lia.
Qed.

Lemma length_strip_by p s : (length (strip_by p s) <= length s)%nat.
Proof.
  unfold strip_by, rstrip_by. rewrite length_rev.
  etransitivity; [apply length_lstrip_by|]. rewrite length_rev.
  apply length_lstrip_by.
Qed.

Lemma length_join_flush cur rest :
  (length (join [HYPHEN] (flush cur rest))
   <= length cur + S (length (join [HYPHEN] rest)))%nat.
Proof.
  destruct cur as [|x cur]; [simpl; lia|].
  change (flush (x :: cur) rest) with (rev (x :: cur) :: rest).
  destruct rest as [|w ws].
  - cbn [join]. rewrite length_rev. lia.
  - change (join [HYPHEN] (rev (x :: cur) :: w :: ws))
      with (rev (x :: cur) ++ [HYPHEN] ++ join [HYPHEN] (w :: ws)).
    rewrite !length_app, length_rev. simpl. lia.
Qed.

(** Joining the words with one hyphen never gives more characters than
    there were: each hyphen stands for at least one whitespace. *)
Lemma length_join_split_from s : forall cur,
  (length (join [HYPHEN] (split_from cur s)) <= length cur + length s)%nat.
Proof.
  induction s as [|c s IH]; intros cur.
  - cbn [split_from]. destruct cur as [|x cur]; [simpl; lia|].
    change (flush (x :: cur) []) with [rev (x :: cur)].
    cbn [join]. rewrite length_rev. lia.
  - cbn [split_from]. destruct (isspace c).
    + etransitivity; [apply length_join_flush|].
      specialize (IH []). simpl in *. lia.
    + etransitivity; [apply IH|]. simpl. lia.
Qed.

Lemma length_base isalnum name :
  (length (strip_hyphens
             (join [HYPHEN] (split (map (clean_char isalnum) name))))
   <= length name)%nat.
Proof.
  unfold strip_hyphens. etransitivity; [apply length_strip_by|].
  unfold split. etransitivity; [apply length_join_split_from|].
  rewrite length_map. simpl. lia.
Qed.

(** X4: a name that is already clean is returned unchanged: not empty, at
    most 120 characters, made of alphanumerics and hyphens, with no hyphen
    at either end. *)
Theorem sanitize_filename_fixed_point (isalnum : N -> bool) (name : str) :
  alnum_never_space isalnum ->
  name <> [] ->
  (length name <= 120)%nat ->
  Forall (fun c => isalnum c = true \/ c = HYPHEN) name ->
  head name <> Some HYPHEN ->
  last name <> Some HYPHEN ->
  sanitize_filename isalnum name = name.
Proof.
  intros Hns Hne Hlen Hall Hhead Hlast.
  assert (Hclean : map (clean_char isalnum) name = name).
  { rewrite <- (map_id name) at 2. apply map_ext_in.
    intros c Hc. rewrite Forall_forall in Hall.
    unfold clean_char.
    destruct (Hall c (proj2 (list_elem_of_In _ _) Hc)) as [-> | ->];
      [reflexivity|].
    by destruct (isalnum HYPHEN). }
  assert (Hnospace : Forall (fun c => isspace c = false) name).
  { eapply Forall_impl; [exact Hall|].
    intros c [Hc | ->]; [by apply Hns | reflexivity]. }
  assert (Hstrip : strip_hyphens name = name).
  { unfold strip_hyphens, strip_by.
    rewrite (lstrip_by_id is_hyphen name).
    - apply rstrip_by_id. intros c Hc. apply N.eqb_neq. congruence.
    - intros c Hc. apply N.eqb_neq. congruence. }
  unfold sanitize_filename.
  destruct name as [|c0 name0] eqn:En; [congruence|]. rewrite <- En in *.
  replace (truthy name) with true by (by rewrite En).
  rewrite Hclean, (split_one_word name) by (congruence || assumption).
  cbn [join]. rewrite Hstrip. unfold str_or.
  replace (truthy name) with true by (by rewrite En).
  by apply take_ge.
Qed.

Lemma sanitize_filename_fixed_point_witness :
  sanitize_filename isalnum_ascii (py "My-Song-live") = py "My-Song-live".
Proof.
  apply sanitize_filename_fixed_point.
  - exact isalnum_ascii_never_space.
  - discriminate.
  - vm_compute. lia.
  - repeat (constructor; [first [by left | by right]|]). constructor.
  - discriminate.
  - vm_compute. discriminate.
Defined.

(** X5: whatever the title, and whatever the classification of characters,
    the result has at most 120 characters, is not empty and does not start
    with a hyphen. *)
Theorem sanitize_filename_bounds (isalnum : N -> bool) (name : str) :
  (1 <= length (sanitize_filename isalnum name) <= 120)%nat
  /\ head (sanitize_filename isalnum name) <> Some HYPHEN.
Proof.
  pose proof (sanitize_filename_length isalnum name) as Hlen.
  pose proof (sanitize_filename_nonempty isalnum name) as Hne.
  split; [|apply sanitize_filename_no_leading_hyphen].
  split; [|exact Hlen].
  destruct (sanitize_filename isalnum name); [congruence | simpl; lia].
Qed.

(** X6: for a title of at most 120 characters nothing is cut off, so the
    result does not end with a hyphen either. *)
Theorem sanitize_filename_short_title (isalnum : N -> bool) (name : str) :
  (length name <= 120)%nat ->
  last (sanitize_filename isalnum name) <> Some HYPHEN.
Proof.
  intros Hlen. apply sanitize_filename_no_trailing_hyphen_short.
  etransitivity; [apply length_base | exact Hlen].
Qed.

Lemma sanitize_filename_short_title_witness :
  last (sanitize_filename isalnum_ascii (py "a - b -")) <> Some HYPHEN.
Proof. apply sanitize_filename_short_title. vm_compute. lia. Defined.

(** X7: a title without any alphanumeric character (empty, punctuation,
    spaces, hyphens, emoji) gives the default name. *)
Theorem sanitize_filename_nothing_left (isalnum : N -> bool) (name : str) :
  Forall (fun c => isalnum c = false) name ->
  sanitize_filename isalnum name = py "download".
Proof.
  intros Hno. apply sanitize_filename_default.
  apply (proj2 (strip_by_nil_iff is_hyphen _)).
  apply Forall_join; [by repeat constructor|].
  unfold split.
  eapply Forall_impl.
  - apply (Forall_split_from (fun c => c = HYPHEN \/ c = SPACE));
      [|constructor].
    apply Forall_map. eapply Forall_impl; [exact Hno|].
    intros c Hc. unfold clean_char. rewrite Hc. cbn [orb].
    destruct (c =? SPACE) eqn:Es; [apply N.eqb_eq in Es; by right|].
    destruct (c =? HYPHEN) eqn:Eh; [apply N.eqb_eq in Eh; by left|].
    by right.
  - intros w Hw. eapply Forall_impl; [exact Hw|].
    intros c [[-> | ->] Hs]; [reflexivity | discriminate].
Qed.

Lemma sanitize_filename_nothing_left_witness :
  sanitize_filename isalnum_ascii (py "?! -- (...) " ++ [128512])
  = py "download".
Proof.
  apply sanitize_filename_nothing_left.
  repeat (constructor; [reflexivity|]). constructor.
Defined.

(** ** More on [pick_thumbnail] *)

Lemma norm_not_scheme_relative u : startswith (norm u) (py "//") = false.
Proof.
  unfold norm. destruct (startswith u (py "//")) eqn:E; [reflexivity | exact E].
Qed.

(** What the loop over the candidates ends with. *)
Lemma fold_thumb_step_result ths :
  let r := fold_left thumb_step ths (None, (-1)%Z) in
  (fst r = None
   /\ forall th, th ∈ ths -> usable th = true -> (area th < 0)%Z)
  \/ (exists e u, e ∈ ths /\ usable e = true /\ (0 <= area e)%Z
        /\ truthy u = true /\ fst r = Some (norm u)).
Proof.
  destruct (fold_thumb_step ths (None, (-1)%Z))
    as [[Hr Hle] | (e & u & Hf & Hu & Hr & Hlt)].
  - left. cbn zeta. rewrite Hr. split; [reflexivity|].
    intros th Hth Hus. specialize (Hle th Hth Hus). simpl in Hle. lia.
  - right. exists e, u. cbn zeta. rewrite Hr.
    destruct Hf as (l1 & l2 & -> & Hue & _).
    split; [rewrite elem_of_app; right; by left|].
    split; [exact Hue|]. split; [simpl in Hlt; lia|].
    split; [|reflexivity].
    unfold usable in Hue. by rewrite Hu in Hue.
Qed.

(** X8: a thumbnail URL that [pick_thumbnail] returns is never empty and
    never scheme-relative (it never starts with two slashes), whichever of
    the three sources it comes from. *)
Theorem pick_thumbnail_absolute (info : info_dict) (r : str) :
  pick_thumbnail info = Some r ->
  r <> [] /\ startswith r (py "//") = false.
Proof.
  unfold pick_thumbnail.
  destruct (thumbnail info) as [[|c t]|].
  2: { intros [= <-]. split; [|apply norm_not_scheme_relative].
       pose proof (norm_truthy (c :: t) eq_refl) as H.
       by destruct (norm (c :: t)). }
  all: destruct (fold_thumb_step_result (thumbnails info))
         as [[Hr _] | (e & u & _ & _ & _ & Ht & Hr)];
       cbn zeta in Hr; rewrite Hr; cbn [opt_truthy].
  all: try (rewrite (norm_truthy u Ht); intros [= <-];
            split; [|apply norm_not_scheme_relative];
            pose proof (norm_truthy u Ht) as H;
            by destruct (norm u)).
  all: destruct (video_id info) as [[|c v]|]; try discriminate;
       intros [= <-]; split; [discriminate | reflexivity].
Qed.

Lemma pick_thumbnail_absolute_witness :
  startswith (py "https://a/2.jpg") (py "//") = false.
Proof.
  apply (proj2 (pick_thumbnail_absolute
                  (info_of_thumbs (three_thumbs (py "//a/1.jpg")
                                     (py "//a/2.jpg") (py "http://a/3.jpg")))
                  (py "https://a/2.jpg") eq_refl)).
Defined.




(** ** More on the progress hook and [get_info] *)

(** X10: one callback of the engine makes the hook emit at most one event,
    a Downloading or a Finished event for its own room; the token map and
    the files are not touched, and a callback whose status is neither
    ["downloading"] nor ["finished"] (an ["error"] status, a missing one)
    has no effect at all. *)
Theorem hook_one_event (room : str) (d : hook_dict) (w : World) :
  DOWNLOAD_MAP (hook room d w) = DOWNLOAD_MAP w
  /\ files (hook room d w) = files w
  /\ (hook room d w = w
      \/ exists ev, log (hook room d w) = log w ++ [Emit room ev]
                    /\ progress_of room (Emit room ev) = true)
  /\ (hd_status d <> Some (py "downloading") ->
      hd_status d <> Some (py "finished") ->
      hook room d w = w).
Proof.
  unfold hook. destruct (hd_status d) as [st|]; [|by repeat split; auto].
  destruct (bool_decide (st = py "downloading")) eqn:E1.
  { apply bool_decide_eq_true_1 in E1. subst st.
    repeat split; [|congruence].
    right. eexists. split; [reflexivity|].
    cbn. by apply bool_decide_eq_true_2. }
  destruct (bool_decide (st = py "finished")) eqn:E2.
  { apply bool_decide_eq_true_1 in E2. subst st.
    repeat split; [|congruence].
    right. eexists. split; [reflexivity|].
    cbn. by apply bool_decide_eq_true_2. }
  repeat split; auto.
Qed.

Lemma get_info_unfold eng data_url w :
  let url := strip (default [] data_url) in
  let run := extract_info eng base_opts url false (files w) in
  get_info eng data_url w =
  if negb (truthy url) then (respond (JsonError (py "No URL provided")) 400, w)
  else
    ( match outcome run with
      | Returned info =>
          respond (JsonInfo (title info) (pick_thumbnail info)) 200
      | Raised _ => respond (JsonError (py "Could not fetch video info")) 500
      end,
      {| DOWNLOAD_MAP := DOWNLOAD_MAP w; files := files_after run;
         log := log w ++ [EngineCall url false] |} ).
Proof.
  cbn zeta. unfold get_info, call_engine.
  destruct (negb (truthy (strip (default [] data_url)))); [reflexivity|].
  by destruct (outcome _).
Qed.

(** X11: a metadata lookup never touches the token map, emits no event
    and stores no token; if the URL is not empty after trimming it calls
    the engine exactly once, for the trimmed URL and with [download=False],
    whether the engine then returns or raises. *)
Theorem get_info_effects (eng : Engine) (data_url : option str) (w : World) :
  let url := strip (default [] data_url) in
  let w' := snd (get_info eng data_url w) in
  DOWNLOAD_MAP w' = DOWNLOAD_MAP w
  /\ (url <> [] -> events_since w w' = [EngineCall url false])
  /\ (url = [] -> events_since w w' = []).
Proof.
  cbn zeta. rewrite get_info_unfold. cbn zeta.
  destruct (strip (default [] data_url)) as [|c u] eqn:E; cbn [truthy negb snd].
  - split; [reflexivity|]. split; [congruence|].
    intros _. unfold events_since. by rewrite drop_all.
  - split; [reflexivity|]. split; [|discriminate].
    intros _. by apply events_since_app.
Qed.

(** X12: a metadata lookup answers 400 exactly when the URL is empty after
    trimming; it answers 200 only if the URL is not empty and the engine
    returned, and the answer then carries the title of the returned info
    and the thumbnail picked from it; a thumbnail in an answer is never
    empty and never scheme-relative. *)
Theorem get_info_answer (eng : Engine) (data_url : option str) (w : World) :
  let url := strip (default [] data_url) in
  let r := fst (get_info eng data_url w) in
  (status r = 400 <-> url = [])
  /\ (status r = 200 ->
      url <> []
      /\ exists info,
           outcome (extract_info eng base_opts url false (files w))
           = Returned info
           /\ content r = JsonInfo (title info) (pick_thumbnail info))
  /\ (forall t th, content r = JsonInfo t (Some th) ->
        th <> [] /\ startswith th (py "//") = false).
Proof.
  cbn zeta. rewrite get_info_unfold. cbn zeta.
  destruct (strip (default [] data_url)) as [|c u] eqn:E; cbn [truthy negb fst].
  { split; [by split|]. split; [discriminate | discriminate]. }
  destruct (outcome _) as [info|e] eqn:Eo.
  - split; [split; discriminate|]. split.
    + intros _. split; [discriminate | eauto].
    + cbn. intros t th [= _ Hth]. revert Hth.
      unfold pick_thumbnail.
      destruct (thumbnail info) as [[|c0 t0]|].
      2: { intros [= <-]. split; [|apply norm_not_scheme_relative].
           pose proof (norm_truthy (c0 :: t0) eq_refl) as H.
           by destruct (norm (c0 :: t0)). }
      all: destruct (fold_thumb_step_result (thumbnails info))
             as [[Hr _] | (e & u0 & _ & _ & _ & Ht & Hr)];
           cbn zeta in Hr; rewrite Hr; cbn [opt_truthy].
      all: try (rewrite (norm_truthy u0 Ht); intros [= <-];
                split; [|apply norm_not_scheme_relative];
                pose proof (norm_truthy u0 Ht) as H;
                by destruct (norm u0)).
      all: destruct (video_id info) as [[|c1 v]|]; try discriminate;
           intros [= <-]; split; [discriminate | reflexivity].
  - split; [split; discriminate|]. split; discriminate.
Qed.

(** ** More on [run_download] *)

Lemma progress_only_to room progress :
  forallb (progress_of room) progress = true ->
  Forall (only_to room) progress.
Proof.
  induction progress as [|ef evs IH]; [constructor|].
  cbn [forallb]. intros H. apply andb_true_iff in H as [Hef Hevs].
  constructor; [|by apply IH].
  intros r ev ->. destruct ev; cbn in Hef;
    first [discriminate | by apply bool_decide_eq_true_1 in Hef].
Qed.

Lemma last_cons_app_snoc {A} (x : A) l m b :
  last (x :: l ++ m ++ [b]) = Some b.
Proof.
  replace (x :: l ++ m ++ [b]) with ((x :: l ++ m) ++ [b])
    by (simpl; by rewrite <- app_assoc).
  apply last_snoc.
Qed.

(** The two ways a job ends. *)
Lemma run_download_cases isalnum eng cwd uuid_a uuid_b url fmt progress_id w :
  let opts := job_opts cwd uuid_a fmt in
  let run := extract_info eng opts url true (files w) in
  let w1 := fst (call_engine eng opts url true (Some progress_id) w) in
  let w' := run_download isalnum eng cwd uuid_a uuid_b url fmt progress_id w in
  (exists msg, w' = emit progress_id (Error msg) w1)
  \/ (exists info p size,
        outcome run = Returned info
        /\ prepare_filename eng opts info = Returned p
        /\ let final_path :=
             if bool_decide (fmt = py "2") then splitext_root p ++ py ".mp3"
             else splitext_root p ++ py ".mp4" in
           let download_name :=
             friendly_title isalnum info ++ py "." ++ ext_of fmt in
           files_after run !! final_path = Some size /\ size <> 0
           /\ w' = emit progress_id
                     (Ready (py "/download/" ++ uuid_b) download_name)
                     (store uuid_b
                        {| path := final_path; name := download_name |} w1)).
Proof.
  cbn zeta. rewrite run_download_after_engine.
  destruct (outcome _) as [info|e] eqn:Eo; [|left; eauto].
  destruct (prepare_filename _ _ info) as [p|e] eqn:Ep; [|left; eauto].
  match goal with
  | |- context [path_exists ?fs ?fp] => destruct (fs !! fp) as [size|] eqn:Ef
  end.
  - rewrite (path_exists_Some _ _ _ Ef), (getsize_Some _ _ _ Ef).
    destruct (size =? 0) eqn:Es; [left; eauto|].
    right. exists info, p, size. apply N.eqb_neq in Es.
    repeat split; auto.
  - rewrite (path_exists_None _ _ Ef). left. eauto.
Qed.

Lemma files_after_engine eng opts url room w :
  files (fst (call_engine eng opts url true (Some room) w))
  = files_after (extract_info eng opts url true (files w)).
Proof.
  by destruct (call_engine_effect eng opts url true room w) as (_ & _ & H & _).
Qed.

(** X13: every job, however it ends, calls the engine once and then
    publishes exactly one final event, a Ready or an Error event, as the
    last thing it does; it stores a token exactly when that event is Ready;
    and every event it publishes goes to its own room. *)
Theorem run_download_lifecycle isalnum eng cwd uuid_a uuid_b url fmt
    progress_id w :
  let w' := run_download isalnum eng cwd uuid_a uuid_b url fmt progress_id w in
  let evs := events_since w w' in
  log w' = log w ++ evs
  /\ (count_if is_ready evs + count_if is_error evs = 1)%nat
  /\ count_if is_store evs = count_if is_ready evs
  /\ count_if is_engine_call evs = 1%nat
  /\ (exists ev, last evs = Some (Emit progress_id ev)
                 /\ is_ready (Emit progress_id ev)
                    || is_error (Emit progress_id ev) = true)
  /\ Forall (only_to progress_id) evs.
Proof.
  cbn zeta.
  destruct (run_download_cases isalnum eng cwd uuid_a uuid_b url fmt
              progress_id w)
    as [[msg E] | (info & p & size & _ & _ & _ & _ & E)];
    cbn zeta in E; rewrite E; clear E.
  - destruct (error_run_shape eng cwd uuid_a url fmt progress_id w msg)
      as (_ & (progress & Hl & Hp) & He & Hr & Hs & Hc).
    cbn zeta in *. rewrite (events_since_app _ _ _ Hl) in *.
    split; [exact Hl|]. split; [lia|]. split; [lia|]. split; [exact Hc|].
    split.
    + exists (Error msg). split; [|reflexivity].
      apply (last_cons_app_snoc _ _ [] _).
    + constructor; [intros r ev; discriminate|].
      apply Forall_app; split; [by apply progress_only_to|].
      constructor; [|constructor]. by intros r ev [= <- _].
  - match goal with
    | |- context [emit _ (Ready ?u ?n) (store _ ?e _)] =>
        destruct (ready_run_shape eng cwd uuid_a uuid_b url fmt progress_id w
                    e u n)
          as (_ & (progress & Hl & Hp) & Hr & He & Hs & Hc);
        set (rurl := u) in *; set (rname := n) in *
    end.
    cbn zeta in *. rewrite (events_since_app _ _ _ Hl) in *.
    split; [exact Hl|]. split; [lia|]. split; [lia|]. split; [exact Hc|].
    split.
    + exists (Ready rurl rname). split; [|reflexivity].
      apply (last_cons_app_snoc _ _ [_] _).
    + constructor; [intros r ev; discriminate|].
      apply Forall_app; split; [by apply progress_only_to|].
      constructor; [intros r ev; discriminate|].
      constructor; [|constructor]. by intros r ev [= <- _].
Qed.

Lemma run_download_success isalnum eng cwd uuid_a uuid_b url fmt progress_id
    w info p size :
  let opts := job_opts cwd uuid_a fmt in
  let run := extract_info eng opts url true (files w) in
  fmt = py "1" \/ fmt = py "2" ->
  outcome run = Returned info ->
  prepare_filename eng opts info = Returned p ->
  files_after run !! final_path_of p fmt = Some size ->
  size <> 0 ->
  run_download isalnum eng cwd uuid_a uuid_b url fmt progress_id w
  = emit progress_id
      (Ready (py "/download/" ++ uuid_b) (download_name isalnum info fmt))
      (store uuid_b
         {| path := final_path_of p fmt;
            name := download_name isalnum info fmt |}
         (fst (call_engine eng opts url true (Some progress_id) w))).
Proof.
  intros opts run Hfmt Hout Hprep Hfile Hsize.
  rewrite run_download_after_engine. fold opts. fold run.
  rewrite Hout, Hprep.
  assert (E : (if bool_decide (fmt = py "2") then splitext_root p ++ py ".mp3"
               else splitext_root p ++ py ".mp4") = final_path_of p fmt).
  { destruct Hfmt as [-> | ->]; reflexivity. }
  rewrite E.
  rewrite (path_exists_Some _ _ _ Hfile), (getsize_Some _ _ _ Hfile).
  apply N.eqb_neq in Hsize. rewrite Hsize. reflexivity.
Qed.

(** X14: a job leaves the files as the engine left them (it removes
    nothing, not even an empty result), changes no entry of the token map
    other than that of its own token, and changes the map not at all when
    it ends without a Ready event. *)
Theorem run_download_frame isalnum eng cwd uuid_a uuid_b url fmt progress_id
    w :
  let run := extract_info eng (job_opts cwd uuid_a fmt) url true (files w) in
  let w' := run_download isalnum eng cwd uuid_a uuid_b url fmt progress_id w in
  files w' = files_after run
  /\ (forall t, t <> uuid_b -> DOWNLOAD_MAP w' !! t = DOWNLOAD_MAP w !! t)
  /\ (count_if is_ready (events_since w w') = 0%nat ->
      DOWNLOAD_MAP w' = DOWNLOAD_MAP w).
Proof.
  cbn zeta.
  pose proof (files_after_engine eng (job_opts cwd uuid_a fmt) url
                progress_id w) as Hfiles.
  destruct (call_engine_effect eng (job_opts cwd uuid_a fmt) url true
              progress_id w) as (_ & Hmap & _ & _).
  cbn zeta in Hmap.
  destruct (run_download_cases isalnum eng cwd uuid_a uuid_b url fmt
              progress_id w)
    as [[msg E] | (info & p & size & _ & _ & _ & _ & E)];
    cbn zeta in E.
  - rewrite E. cbn [emit files DOWNLOAD_MAP].
    split; [exact Hfiles|]. split; [by intros; rewrite Hmap | by rewrite Hmap].
  - match type of E with
    | _ = emit _ (Ready ?u ?n) (store _ ?e _) =>
        destruct (ready_run_shape eng cwd uuid_a uuid_b url fmt progress_id w
                    e u n) as (_ & _ & Hr & _)
    end.
    cbn zeta in Hr. rewrite <- E in Hr. rewrite Hr.
    rewrite E. cbn [emit store files DOWNLOAD_MAP].
    split; [exact Hfiles|]. split; [|discriminate].
    intros t Hne. rewrite lookup_insert_ne by done. by rewrite Hmap.
Qed.

(** X15: for both formats that [start_download] accepts, a job whose
    engine calls return and whose final file exists and is not empty ends
    with a Ready event for its token, and registers the token for the final
    path and the download name; the two carry the same extension, [mp4]
    for ["1"] and [mp3] for ["2"]. *)
Theorem run_download_ready isalnum eng cwd uuid_a uuid_b url fmt progress_id
    w info p size :
  let opts := job_opts cwd uuid_a fmt in
  let run := extract_info eng opts url true (files w) in
  let w' := run_download isalnum eng cwd uuid_a uuid_b url fmt progress_id w in
  fmt = py "1" \/ fmt = py "2" ->
  outcome run = Returned info ->
  prepare_filename eng opts info = Returned p ->
  files_after run !! final_path_of p fmt = Some size ->
  size <> 0 ->
  DOWNLOAD_MAP w' !! uuid_b
  = Some {| path := final_path_of p fmt;
            name := download_name isalnum info fmt |}
  /\ last (log w')
     = Some (Emit progress_id
               (Ready (py "/download/" ++ uuid_b)
                      (download_name isalnum info fmt)))
  /\ (fmt = py "1" -> ext_of fmt = py "mp4")
  /\ (fmt = py "2" -> ext_of fmt = py "mp3").
Proof.
  intros opts run w' Hfmt Hout Hprep Hfile Hsize.
  unfold w'.
  rewrite (run_download_success isalnum eng cwd uuid_a uuid_b url fmt
             progress_id w info p size Hfmt Hout Hprep Hfile Hsize).
  cbn [emit store DOWNLOAD_MAP log].
  split; [apply lookup_insert_eq|].
  split; [apply last_snoc|].
  split; intros ->; reflexivity.
Qed.

Lemma run_download_ready_witness :
  DOWNLOAD_MAP
    (run_download isalnum_ascii
       (const_engine good_video_run
          (Returned (py "/srv/downloads/My Song-0a1b2c.webm")))
       (py "/srv") (py "0a1b2c3d4e5f") (py "feedfacecafebeef")
       (py "https://example.com/v") (py "1") (py "room1") empty_world)
    !! py "feedfacecafebeef"
  = Some {| path := py "/srv/downloads/My Song-0a1b2c.mp4";
            name := py "My-Song-live.mp4" |}.
Proof.
  refine (proj1 (run_download_ready isalnum_ascii
            (const_engine good_video_run
               (Returned (py "/srv/downloads/My Song-0a1b2c.webm")))
            (py "/srv") (py "0a1b2c3d4e5f") (py "feedfacecafebeef")
            (py "https://example.com/v") (py "1") (py "room1") empty_world
            sample_info (py "/srv/downloads/My Song-0a1b2c.webm") 9
            _ _ _ _ _)).
  - by left.
  - reflexivity.
  - reflexivity.
  - vm_compute. reflexivity.
  - discriminate.
Defined.

(** X16: registering and retrieving compose.  After a job that ended with
    a Ready event, the first request for its token is answered with the
    final file under the download name; that request removes the file and
    the token, and a second request for the token gets 404. *)
Theorem job_then_download isalnum eng cwd uuid_a uuid_b url fmt progress_id
    w info p size :
  let opts := job_opts cwd uuid_a fmt in
  let run := extract_info eng opts url true (files w) in
  let w' := run_download isalnum eng cwd uuid_a uuid_b url fmt progress_id w in
  let first := download_file uuid_b w' in
  fmt = py "1" \/ fmt = py "2" ->
  outcome run = Returned info ->
  prepare_filename eng opts info = Returned p ->
  files_after run !! final_path_of p fmt = Some size ->
  size <> 0 ->
  fst first
  = {| content := Attachment (final_path_of p fmt)
                     (download_name isalnum info fmt);
       status := 200 |}
  /\ files (snd first) = delete (final_path_of p fmt) (files_after run)
  /\ DOWNLOAD_MAP (snd first) = delete uuid_b (DOWNLOAD_MAP w)
  /\ fst (download_file uuid_b (snd first))
     = not_found "Link expired or invalid".
Proof.
  intros opts run w' first Hfmt Hout Hprep Hfile Hsize.
  pose proof (run_download_success isalnum eng cwd uuid_a uuid_b url fmt
                progress_id w info p size Hfmt Hout Hprep Hfile Hsize) as E.
  fold opts in E. fold w' in E.
  pose proof (files_after_engine eng opts url progress_id w) as Hfiles.
  destruct (call_engine_effect eng opts url true progress_id w)
    as (_ & Hmap & _ & _). cbn zeta in Hmap.
  assert (Hlook : DOWNLOAD_MAP w' !! uuid_b
                  = Some {| path := final_path_of p fmt;
                            name := download_name isalnum info fmt |}).
  { rewrite E. cbn [emit store DOWNLOAD_MAP]. apply lookup_insert_eq. }
  assert (Hfs : files w' = files_after run).
  { rewrite E. cbn [emit store files]. exact Hfiles. }
  assert (Hfirst : first
                   = (respond (Attachment (final_path_of p fmt)
                                 (download_name isalnum info fmt)) 200,
                      cleanup (final_path_of p fmt) (snd (pop uuid_b w')))).
  { unfold first, download_file, pop. rewrite Hlook. cbn [files path name].
    rewrite Hfs, (path_exists_Some _ _ _ Hfile). reflexivity. }
  split; [by rewrite Hfirst|].
  split; [rewrite Hfirst; cbn; by rewrite Hfs|].
  assert (Hgone : DOWNLOAD_MAP first.2 = delete uuid_b (DOWNLOAD_MAP w)).
  { unfold first. rewrite download_file_removes, E.
    cbn [emit store DOWNLOAD_MAP]. by rewrite delete_insert_eq, Hmap. }
  split; [exact Hgone|].
  apply download_file_unregistered. rewrite Hgone. apply lookup_delete_eq.
Qed.

Lemma job_then_download_witness :
  fst (download_file (py "feedfacecafebeef")
         (sample_job good_engine (py "2")))
  = {| content := Attachment (py "/srv/downloads/My Song-0a1b2c.mp3")
                     (py "My-Song-live.mp3");
       status := 200 |}.
Proof.
  refine (proj1 (job_then_download isalnum_ascii good_engine
            (py "/srv") (py "0a1b2c3d4e5f") (py "feedfacecafebeef")
            (py "https://example.com/v") (py "2") (py "room1") empty_world
            sample_info (py "/srv/downloads/My Song-0a1b2c.webm") 7
            _ _ _ _ _)).
  - by right.
  - reflexivity.
  - reflexivity.
  - vm_compute. reflexivity.
  - discriminate.
Defined.

Lemma count_if_none {A} (f : A -> bool) l :
  Forall (fun x => f x = false) l -> count_if f l = 0%nat.
Proof.
  induction 1 as [|x l Hx Hl IH]; [reflexivity|].
  by rewrite count_if_cons, Hx, IH.
Qed.

Lemma friendly_title_safe isalnum info :
  agrees_on_ascii isalnum -> alnum_never_space isalnum ->
  Forall (safe_char isalnum) (friendly_title isalnum info).
Proof.
  intros Ha Hs. unfold friendly_title.
  destruct (title info) as [t|]; [|by apply download_safe].
  unfold sanitize_filename.
  destruct (truthy t); [|by apply download_safe].
  apply Forall_take. unfold str_or.
  destruct (truthy _); [|by apply download_safe].
  apply Forall_strip_by. by apply base_safe.
Qed.

Lemma friendly_title_length isalnum info :
  (length (friendly_title isalnum info) <= 120)%nat.
Proof.
  unfold friendly_title. destruct (title info) as [t|].
  - apply sanitize_filename_length.
  - vm_compute. lia.
Qed.

(** X17: the download name of a job is safe to hand to a browser and a
    file system: it has no slash, no backslash and no whitespace, exactly
    one dot (the one before the extension), and at most 124 characters. *)
Theorem download_name_safe (isalnum : N -> bool) (info : info_dict)
    (fmt : str) :
  agrees_on_ascii isalnum ->
  alnum_never_space isalnum ->
  Forall (fun c => c <> SLASH /\ c <> BACKSLASH /\ isspace c = false)
         (download_name isalnum info fmt)
  /\ count_if (N.eqb DOT) (download_name isalnum info fmt) = 1%nat
  /\ (length (download_name isalnum info fmt) <= 124)%nat.
Proof.
  intros Ha Hs.
  pose proof (friendly_title_safe isalnum info Ha Hs) as Hstem.
  assert (Hnot : forall c, c < 128 -> ascii_isalnum c = false ->
                           c <> HYPHEN -> ~ safe_char isalnum c).
  { intros c Hc Hf Hh [_ [H | H]]; [|done].
    rewrite (Ha c Hc) in H. congruence. }
  assert (Hext : ext_of fmt = py "mp4" \/ ext_of fmt = py "mp3").
  { unfold ext_of. destruct (bool_decide _); auto. }
  unfold download_name. split; [|split].
  - apply Forall_app; split.
    + eapply Forall_impl; [exact Hstem|].
      intros c Hc. split; [|split; [|apply Hc]].
      * intros ->. by apply (Hnot SLASH).
      * intros ->. by apply (Hnot BACKSLASH).
    + destruct Hext as [-> | ->];
        repeat (constructor; [by repeat split|]); constructor.
  - rewrite !count_if_app.
    rewrite (count_if_none (N.eqb DOT) (friendly_title isalnum info)).
    + destruct Hext as [-> | ->]; reflexivity.
    + eapply Forall_impl; [exact Hstem|].
      intros c Hc. apply N.eqb_neq. intros <-. by apply (Hnot DOT).
  - pose proof (friendly_title_length isalnum info).
    rewrite !length_app. destruct Hext as [-> | ->]; simpl; lia.
Qed.

Lemma download_name_safe_witness :
  count_if (N.eqb DOT) (download_name isalnum_ascii sample_info (py "2"))
  = 1%nat.
Proof.
  exact (proj1 (proj2 (download_name_safe isalnum_ascii sample_info (py "2")
                         isalnum_ascii_agrees isalnum_ascii_never_space))).
Defined.

(** ** More on [download_file] and [start_download] *)

(** X18: a retrieval answers 200 only for a token that is registered and
    whose registered path exists, and the answer is then that file under
    the registered name.  A token that is not registered is answered 404
    "Link expired or invalid", and a registered token whose file is
    missing 404 "File not found". *)
Theorem download_file_success (token : str) (w : World) :
  let r := fst (download_file token w) in
  (status r = 200 ->
   exists e, DOWNLOAD_MAP w !! token = Some e
             /\ is_Some (files w !! path e)
             /\ content r = Attachment (path e) (name e))
  /\ (DOWNLOAD_MAP w !! token = None ->
      r = not_found "Link expired or invalid")
  /\ (forall e, DOWNLOAD_MAP w !! token = Some e ->
        files w !! path e = None ->
        r = not_found "File not found").
Proof.
  cbn zeta. unfold download_file, pop.
  destruct (DOWNLOAD_MAP w !! token) as [e|] eqn:E; cbn [files].
  - destruct (files w !! path e) as [n|] eqn:Ef.
    + rewrite (path_exists_Some _ _ _ Ef). cbn [negb fst].
      split; [|split; [discriminate|]].
      * intros _. exists e. by rewrite Ef.
      * intros e' [= <-] Hnone. congruence.
    + rewrite (path_exists_None _ _ Ef). cbn [negb fst].
      split; [discriminate|]. split; [discriminate|].
      by intros e' [= <-] _.
  - cbn [fst]. split; [discriminate|]. split; [reflexivity | discriminate].
Qed.

(** X19: a retrieval writes nothing to the log and touches no other
    token.  It removes a file only when it answers with it, and then only
    that file; a request answered 404 (unknown token, or a registered file
    that is missing) leaves every file in place. *)
Theorem download_file_frame (token : str) (w : World) :
  let r := fst (download_file token w) in
  let w' := snd (download_file token w) in
  log w' = log w
  /\ (forall t, t <> token -> DOWNLOAD_MAP w' !! t = DOWNLOAD_MAP w !! t)
  /\ (status r = 404 -> files w' = files w)
  /\ (forall e, status r = 200 -> DOWNLOAD_MAP w !! token = Some e ->
        files w' = delete (path e) (files w)).
Proof.
  cbn zeta. unfold download_file, pop.
  destruct (DOWNLOAD_MAP w !! token) as [e|] eqn:E; cbn [files].
  - destruct (negb (path_exists (files w) (path e)));
      cbn [fst snd log DOWNLOAD_MAP files cleanup].
    + split; [reflexivity|]. split; [by intros; apply lookup_delete_ne|].
      split; [reflexivity | discriminate].
    + split; [reflexivity|]. split; [by intros; apply lookup_delete_ne|].
      split; [discriminate|]. by intros e' _ [= <-].
  - cbn [fst snd log DOWNLOAD_MAP files].
    split; [reflexivity|]. split; [by intros; apply lookup_delete_ne|].
    split; [reflexivity | discriminate].
Qed.

Lemma strip_trimmed s : trimmed (strip s).
Proof.
  split; intros c Hc; [by apply strip_by_head in Hc | by apply strip_by_last in Hc].
Qed.

(** X20: [start_download] never runs or drops a job and starts at most
    one: the world is unchanged and the list of started threads only grows
    at its end.  Every job it starts has a non-empty URL and room id
    without whitespace at either end, and the option ["1"] or ["2"]; so if
    all jobs started before were of that kind, all jobs are. *)
Theorem start_download_jobs_valid (f : form) (s : Server) :
  Forall valid_job (started s) ->
  let s' := snd (start_download f s) in
  Forall valid_job (started s')
  /\ world s' = world s
  /\ (started s' = started s
      \/ exists j, started s' = started s ++ [j] /\ valid_job j).
Proof.
  intros Hall. cbn zeta. unfold start_download.
  destruct (strip (default [] (form_url f))) as [|c u] eqn:Eu;
    cbn [truthy negb orb snd]; [by auto|].
  destruct (bool_decide (strip (default [] (form_option f)) = py "1")) eqn:E1;
    destruct (bool_decide (strip (default [] (form_option f)) = py "2")) eqn:E2;
    cbn [negb orb snd]; try (by auto).
  all: destruct (strip (default [] (form_progress_id f))) as [|c' p'] eqn:Ep;
    cbn [truthy negb snd started world]; [by auto|].
  all: assert (Hj : valid_job
                 {| job_url := c :: u;
                    job_option := strip (default [] (form_option f));
                    job_progress_id := c' :: p' |});
    [ unfold valid_job; cbn [job_url job_option job_progress_id];
      rewrite <- Eu, <- Ep;
      split; [rewrite Eu; discriminate|];
      split; [apply strip_trimmed|];
      split; [first [ apply bool_decide_eq_true_1 in E1; by left
                    | apply bool_decide_eq_true_1 in E2; by right ]|];
      split; [rewrite Ep; discriminate | apply strip_trimmed]
    | split; [apply Forall_app; split; [exact Hall | by constructor]|];
      split; [reflexivity|]; right; eauto ].
Qed.

Lemma start_download_jobs_valid_witness :
  Forall valid_job
    (started
       (snd (start_download
               {| form_url := Some (py "  https://example.com/v ");
                  form_option := Some (py "2 ");
                  form_progress_id := Some (py " room1") |}
               {| world := empty_world; started := [] |}))).
Proof.
  apply (start_download_jobs_valid
           {| form_url := Some (py "  https://example.com/v ");
              form_option := Some (py "2 ");
              form_progress_id := Some (py " room1") |}
           {| world := empty_world; started := [] |}).
  constructor.
Defined.

(** ** [handle_subscribe] and the delivery of events *)

Lemma members_join_eq room sid rooms :
  members (join_room room sid rooms) room = {[sid]} ∪ members rooms room.
Proof. unfold members at 1, join_room. by rewrite lookup_insert_eq. Qed.

Lemma members_join_ne room room' sid rooms :
  room <> room' ->
  members (join_room room sid rooms) room' = members rooms room'.
Proof.
  intros Hne. unfold members, join_room. by rewrite lookup_insert_ne.
Qed.

Lemma join_room_twice room sid rooms :
  join_room room sid (join_room room sid rooms) = join_room room sid rooms.
Proof.
  unfold join_room at 1. rewrite members_join_eq.
  unfold join_room. rewrite insert_insert_eq. f_equal.
  by rewrite (assoc_L (∪)), (idemp_L (∪) {[sid]}).
Qed.

(** X21: a subscription is acknowledged exactly when the room id is
    present and not empty (it is not trimmed); it then adds the connection
    to that room and changes no other room, a refused one changes nothing,
    and subscribing twice is the same as subscribing once. *)
Theorem handle_subscribe_membership (progress_id : option str) (sid : N)
    (rooms : gmap str (gset N)) :
  let r := handle_subscribe progress_id sid rooms in
  (fst r = AckOk <-> opt_truthy progress_id = true)
  /\ (fst r <> AckOk -> snd r = rooms)
  /\ (forall room, progress_id = Some room -> fst r = AckOk ->
        members (snd r) room = {[sid]} ∪ members rooms room)
  /\ (forall room, progress_id <> Some room ->
        members (snd r) room = members rooms room)
  /\ snd (handle_subscribe progress_id sid (snd r)) = snd r.
Proof.
  cbn zeta. unfold handle_subscribe, opt_truthy.
  destruct progress_id as [room|]; [|by repeat split; auto].
  destruct (truthy room) eqn:Et; cbn [fst snd].
  - split; [done|]. split; [done|].
    split; [intros room' [= <-] _; apply members_join_eq|].
    split; [intros room' Hne; apply members_join_ne; congruence|].
    apply join_room_twice.
  - split; [split; discriminate|]. split; [done|].
    split; [discriminate|]. split; [done|].
    reflexivity.
Qed.

Lemma delivered_member rooms sid room evs :
  Forall (only_to room) evs -> sid ∈ members rooms room ->
  delivered rooms sid evs = emitted evs.
Proof.
  intros Hall Hin. unfold delivered, emitted.
  induction Hall as [|ef evs Hef Hevs IH]; [reflexivity|].
  cbn [omap list_omap]. rewrite IH.
  destruct ef as [r ev | |]; try reflexivity.
  cbn [received]. rewrite (Hef r ev eq_refl).
  by rewrite bool_decide_eq_true_2.
Qed.

Lemma delivered_stranger rooms sid room evs :
  Forall (only_to room) evs -> sid ∉ members rooms room ->
  delivered rooms sid evs = [].
Proof.
  intros Hall Hin. unfold delivered.
  induction Hall as [|ef evs Hef Hevs IH]; [reflexivity|].
  cbn [omap list_omap]. rewrite IH.
  destruct ef as [r ev | |]; try reflexivity.
  cbn [received]. rewrite (Hef r ev eq_refl).
  by rewrite bool_decide_eq_false_2.
Qed.

Lemma run_download_only_to isalnum eng cwd uuid_a uuid_b url fmt progress_id w :
  Forall (only_to progress_id)
    (events_since w
       (run_download isalnum eng cwd uuid_a uuid_b url fmt progress_id w)).
Proof.
  destruct (run_download_cases isalnum eng cwd uuid_a uuid_b url fmt
              progress_id w)
    as [[msg E] | (info & p & size & _ & _ & _ & _ & E)];
    cbn zeta in E; rewrite E; clear E.
  - destruct (error_run_shape eng cwd uuid_a url fmt progress_id w msg)
      as (_ & (progress & Hl & Hp) & _).
    cbn zeta in *. rewrite (events_since_app _ _ _ Hl).
    constructor; [intros r ev; discriminate|].
    apply Forall_app; split; [by apply progress_only_to|].
    constructor; [|constructor]. by intros r ev [= <- _].
  - match goal with
    | |- context [emit _ (Ready ?u ?n) (store _ ?e _)] =>
        destruct (ready_run_shape eng cwd uuid_a uuid_b url fmt progress_id w
                    e u n) as (_ & (progress & Hl & Hp) & _)
    end.
    cbn zeta in *. rewrite (events_since_app _ _ _ Hl).
    constructor; [intros r ev; discriminate|].
    apply Forall_app; split; [by apply progress_only_to|].
    constructor; [intros r ev; discriminate|].
    constructor; [|constructor]. by intros r ev [= <- _].
Qed.

(** X22: the events of a job reach the connections in the room of its
    progress id, each of them getting every event in order, and nobody
    else: a connection outside that room receives nothing from the job. *)
Theorem job_events_delivery (isalnum : N -> bool) (eng : Engine)
    (cwd uuid_a uuid_b url fmt progress_id : str) (w : World)
    (rooms : gmap str (gset N)) (sid : N) :
  let evs :=
    events_since w
      (run_download isalnum eng cwd uuid_a uuid_b url fmt progress_id w) in
  (sid ∈ members rooms progress_id -> delivered rooms sid evs = emitted evs)
  /\ (sid ∉ members rooms progress_id -> delivered rooms sid evs = []).
Proof.
  cbn zeta.
  pose proof (run_download_only_to isalnum eng cwd uuid_a uuid_b url fmt
                progress_id w) as Hall.
  split; intros Hin.
  - by apply (delivered_member rooms sid progress_id).
  - by apply (delivered_stranger rooms sid progress_id).
Qed.

Lemma job_events_delivery_witness :
  delivered (snd (handle_subscribe (Some (py "room1")) 7 ∅)) 7
    (events_since empty_world (sample_job good_engine (py "2")))
  = emitted (events_since empty_world (sample_job good_engine (py "2"))).
Proof.
  apply (proj1 (job_events_delivery isalnum_ascii good_engine
                  (py "/srv") (py "0a1b2c3d4e5f") (py "feedfacecafebeef")
                  (py "https://example.com/v") (py "2") (py "room1")
                  empty_world
                  (snd (handle_subscribe (Some (py "room1")) 7 ∅)) 7)).
  change (snd (handle_subscribe (Some (py "room1")) 7 ∅))
    with (join_room (py "room1") 7 ∅).
  rewrite members_join_eq.
  apply elem_of_union. left. by apply elem_of_singleton.
Defined.

(** X23: [handle_subscribe] takes the room id as it is, [start_download]
    trims it.  A client whose id has whitespace at an end is acknowledged
    and joins the room of the untrimmed id, but the job started for the
    same id publishes to the room of the trimmed id, so (unless the client
    is in that room too) it receives none of the job's events. *)
Theorem untrimmed_room_id_misses_events (isalnum : N -> bool) (eng : Engine)
    (cwd uuid_a uuid_b : str) (w : World)
    (rooms : gmap str (gset N)) (sid : N) (raw : str) (f : form) (s : Server) :
  raw <> [] ->
  strip raw <> raw ->
  sid ∉ members rooms (strip raw) ->
  form_progress_id f = Some raw ->
  let rooms' := snd (handle_subscribe (Some raw) sid rooms) in
  fst (handle_subscribe (Some raw) sid rooms) = AckOk
  /\ sid ∈ members rooms' raw
  /\ (forall j, started (snd (start_download f s)) = started s ++ [j] ->
        job_progress_id j = strip raw
        /\ delivered rooms' sid
             (events_since w
                (run_download isalnum eng cwd uuid_a uuid_b (job_url j)
                   (job_option j) (job_progress_id j) w)) = []).
Proof.
  intros Hne Hstrip Hout Hform. cbn zeta. unfold handle_subscribe.
  destruct raw as [|c raw0] eqn:Er; [congruence|]. rewrite <- Er in *.
  replace (truthy raw) with true by (by rewrite Er). cbn [fst snd].
  split; [reflexivity|].
  split.
  { rewrite members_join_eq. apply elem_of_union. left.
    by apply elem_of_singleton. }
  intros j Hj.
  assert (Hpid : job_progress_id j = strip raw).
  { revert Hj. unfold start_download. rewrite Hform. cbn [default from_option id].
    destruct (negb _ || negb _ || negb _); cbn [snd started].
    - intros H. apply (f_equal length) in H. rewrite length_app in H.
      simpl in H. lia.
    - intros H. apply app_inj_tail in H as [_ <-]. reflexivity. }
  split; [exact Hpid|]. rewrite Hpid.
  apply (delivered_stranger _ sid (strip raw)).
  - apply run_download_only_to.
  - rewrite members_join_ne by congruence. exact Hout.
Qed.

Lemma untrimmed_room_id_misses_events_witness :
  delivered (snd (handle_subscribe (Some (py "room1 ")) 7 ∅)) 7
    (events_since empty_world (sample_job good_engine (py "2")))
  = [].
Proof.
  refine (proj2 (proj2 (proj2 (untrimmed_room_id_misses_events
            isalnum_ascii good_engine
            (py "/srv") (py "0a1b2c3d4e5f") (py "feedfacecafebeef")
            empty_world ∅ 7 (py "room1 ")
            {| form_url := Some (py "https://example.com/v");
               form_option := Some (py "2");
               form_progress_id := Some (py "room1 ") |}
            {| world := empty_world; started := [] |} _ _ _ _))
            {| job_url := py "https://example.com/v"; job_option := py "2";
               job_progress_id := py "room1" |} _)).
  - discriminate.
  - vm_compute. discriminate.
  - unfold members. rewrite lookup_empty. cbn. apply not_elem_of_empty.
  - reflexivity.
  - reflexivity.
Defined.

(** ** More on concurrent retrievals *)

Lemma dl_step_registered th w token :
  (registered (snd (dl_step th w)) token <= registered w token)%nat.
Proof.
  destruct th as [t | t e | t e | t r]; cbn [dl_step].
  - unfold pop, registered.
    destruct (DOWNLOAD_MAP w !! t) as [e|] eqn:E; cbn [snd DOWNLOAD_MAP];
      (destruct (decide (t = token)) as [-> | Hne];
       [rewrite lookup_delete_eq; lia | by rewrite lookup_delete_ne]).
  - by destruct (negb _).
  - reflexivity.
  - reflexivity.
Qed.

Lemma sys_step_used_token s s' token :
  sys_step s s' ->
  token ∈ issued s -> registered (sys_world s) token = 0%nat ->
  token ∈ issued s'
  /\ registered (sys_world s') token = 0%nat
  /\ (count_if (holds_entry token) (pool s')
      <= count_if (holds_entry token) (pool s))%nat.
Proof.
  intros Hstep Hiss Hreg.
  destruct Hstep as [w p iss t | w pre th post iss | w p iss t e Hfresh
                    | w p iss fs];
    cbn [sys_world pool issued] in *.
  - split; [exact Hiss|]. split; [exact Hreg|].
    rewrite count_if_app, count_if_cons. cbn. lia.
  - pose proof (dl_step_owner th w token) as Hown. cbn zeta in Hown.
    pose proof (dl_step_registered th w token) as Hle.
    split; [exact Hiss|]. split; [lia|].
    rewrite !count_if_middle. lia.
  - split; [apply elem_of_union; by right|]. split; [|lia].
    unfold registered, store in *. cbn [DOWNLOAD_MAP].
    rewrite lookup_insert_ne; [exact Hreg|]. intros ->. contradiction.
  - auto.
Qed.

(** X24: a used link stays dead.  Once the entry of a registered token is
    gone from the map, it is never there again, and no request obtains it
    afterwards, whatever requests, registrations of new tokens and file
    changes follow: the number of requests holding the entry never grows. *)
Theorem used_token_stays_dead (s s' : system) (token : str) :
  reachable s s' ->
  token ∈ issued s ->
  registered (sys_world s) token = 0%nat ->
  registered (sys_world s') token = 0%nat
  /\ (count_if (holds_entry token) (pool s')
      <= count_if (holds_entry token) (pool s))%nat
  /\ (count_if (holds_entry token) (pool s) = 0%nat ->
      count_if (succeeded token) (pool s') = 0%nat).
Proof.
  intros Hreach Hiss Hreg.
  assert (H : token ∈ issued s'
              /\ registered (sys_world s') token = 0%nat
              /\ (count_if (holds_entry token) (pool s')
                  <= count_if (holds_entry token) (pool s))%nat).
  { induction Hreach as [|s1 s2 Hr IH Hstep]; [auto|].
    destruct IH as (Hi & Hg & Hc).
    destruct (sys_step_used_token s1 s2 token Hstep Hi Hg) as (Hi' & Hg' & Hc').
    repeat split; [assumption | assumption | lia]. }
  destruct H as (_ & Hg & Hc). split; [exact Hg|]. split; [exact Hc|].
  intros Hzero.
  pose proof (count_if_le (succeeded token) (holds_entry token) (pool s')
                (succeeded_holds token)).
  lia.
Qed.

Lemma used_token_stays_dead_witness :
  count_if (succeeded (py "feedfacecafebeef"))
    (pool (run_schedule
             [Arrive (py "feedfacecafebeef"); Run 0; Run 0;
              Register (py "0123456789abcdef") sample_entry; Run 0]
             {| sys_world := empty_world; pool := [];
                issued := {[ py "feedfacecafebeef" ]} |}))
  = 0%nat.
Proof.
  refine (proj2 (proj2 (used_token_stays_dead
            {| sys_world := empty_world; pool := [];
               issued := {[ py "feedfacecafebeef" ]} |}
            _ (py "feedfacecafebeef")
            (run_schedule_reachable _ _ _ (reach_refl _)) _ _)) _).
  - cbn [issued]. by apply elem_of_singleton_2.
  - reflexivity.
  - reflexivity.
Defined.

(** ** The output template of a job *)

Lemma outtmpl_download_opts tmpl fmt :
  outtmpl (download_opts tmpl fmt) = Some tmpl.
Proof. unfold download_opts. by destruct (bool_decide _). Qed.

Lemma path_join_relative a b :
  startswith b [SLASH] = false ->
  path_join a b = a ++ b \/ path_join a b = a ++ [SLASH] ++ b.
Proof.
  intros Hb. unfold path_join. rewrite Hb.
  destruct (negb (truthy a) || bool_decide (last a = Some SLASH)); auto.
Qed.

Lemma path_join_inj a b b' :
  startswith b [SLASH] = false -> startswith b' [SLASH] = false ->
  path_join a b = path_join a b' -> b = b'.
Proof.
  intros Hb Hb'. unfold path_join. rewrite Hb, Hb'.
  destruct (negb (truthy a) || bool_decide (last a = Some SLASH)); intros H.
  - by apply app_inv_head in H.
  - apply app_inv_head in H. by injection H.
Qed.

(** The download directory is not empty and does not end with a slash:
    it ends with the [s] of [downloads]. *)
Lemma DOWNLOAD_DIR_end cwd : exists pre, DOWNLOAD_DIR cwd = pre ++ [115].
Proof.
  unfold DOWNLOAD_DIR.
  destruct (path_join_relative cwd (py "downloads") eq_refl) as [-> | ->].
  - exists (cwd ++ py "download"). by rewrite <- app_assoc.
  - exists (cwd ++ [SLASH] ++ py "download"). by rewrite <- !app_assoc.
Qed.

Lemma path_join_DOWNLOAD_DIR cwd b :
  startswith b [SLASH] = false ->
  path_join (DOWNLOAD_DIR cwd) b = DOWNLOAD_DIR cwd ++ [SLASH] ++ b.
Proof.
  intros Hb. destruct (DOWNLOAD_DIR_end cwd) as [pre ->].
  unfold path_join. rewrite Hb, last_snoc.
  rewrite bool_decide_eq_false_2 by discriminate.
  by destruct pre.
Qed.

(** X25: the output template of a job is the download directory, a slash,
    and the pattern made of the title placeholder, a hyphen, the first six
    characters of the uuid and the extension placeholder; that pattern has
    no slash if the uuid has none, so it names a file directly in the
    download directory.  Two jobs get the same template exactly when the
    first six characters of their uuids are the same: nothing else of the
    uuid, and nothing of the format, tells their files apart. *)
Theorem outtmpl_disambiguation (cwd uuid_a uuid_a' fmt fmt' : str) :
  (outtmpl (job_opts cwd uuid_a fmt) = outtmpl (job_opts cwd uuid_a' fmt')
   <-> take 6 uuid_a = take 6 uuid_a')
  /\ outtmpl (job_opts cwd uuid_a fmt)
     = Some (DOWNLOAD_DIR cwd ++ [SLASH]
             ++ py "%(title)s-" ++ take 6 uuid_a ++ py ".%(ext)s")
  /\ (Forall (fun c => c <> SLASH) uuid_a ->
      Forall (fun c => c <> SLASH)
             (py "%(title)s-" ++ take 6 uuid_a ++ py ".%(ext)s"))
  /\ (exists pre, DOWNLOAD_DIR cwd = pre ++ py "downloads").
Proof.
  unfold job_opts. rewrite !outtmpl_download_opts.
  assert (Hrel : forall u, startswith (py "%(title)s-" ++ take 6 u
                                       ++ py ".%(ext)s") [SLASH] = false)
    by reflexivity.
  split; [|split; [|split]].
  - split.
    + intros H. apply (inj Some) in H.
      apply path_join_inj in H; [|apply Hrel..].
      apply app_inv_head in H. by apply app_inv_tail in H.
    + by intros ->.
  - by rewrite path_join_DOWNLOAD_DIR.
  - intros Hu. apply Forall_app; split.
    + repeat (constructor; [discriminate|]). constructor.
    + apply Forall_app; split; [by apply Forall_take|].
      repeat (constructor; [discriminate|]). constructor.
  - unfold DOWNLOAD_DIR.
    destruct (path_join_relative cwd (py "downloads") eq_refl) as [-> | ->].
    + by exists cwd.
    + exists (cwd ++ [SLASH]). by rewrite <- app_assoc.
Qed.
